(** * LuaVela math library: the Tausworthe PRNG of [src/lib/math.c]

    A shallow embedding of the pseudo-random number generator behind
    [math.random] and [math.randomseed] (a combined Tausworthe generator
    with period 2^223, L'Ecuyer 1991), and the properties of its step
    function, seeder and the two library entry points; then the argument
    checks of the fast-function fallback handlers of the same file.

    Conventions of the embedding:
    - [uint64_t] and [uint32_t] values are integers of [Z] whose wrap-around
      is written out with [u64] and [u32];
    - a C [double] is represented by its IEEE-754 binary64 encoding, the
      eight bytes read as a [uint64_t]; arithmetic decodes the operands into
      Rocq's [spec_float], applies the correctly rounded operation of
      [SpecFloat] and encodes the result;
    - the PRNG state is threaded explicitly; library functions that may raise
      a Lua error live in a small state-and-error monad, in which the state
      reached before the error is kept (a Lua error is a [longjmp], it does
      not roll the userdata back). *)

From Stdlib Require Import ZArith Bool List String Lia.
From Stdlib Require Import SpecFloat.
From stdpp Require Import base list.

#[local] Open Scope Z_scope.

(** ** Machine integers *)

Module Word.

(** Truncation to [uint64_t]. *)
Definition u64 (x : Z) : Z := x mod 2 ^ 64.

(** Truncation to [uint32_t]. *)
Definition u32 (x : Z) : Z := x mod 2 ^ 32.

(** Modelled from the spec: the macro [U64x(hi, lo)] of lj_def.h is not part
    of the sources; it pastes two 32-bit hexadecimal halves into one 64-bit
    constant (the spec writes the two constants of the step function as
    [0x000FFFFFFFFFFFFF] and [0x3FF0000000000000]). *)
Definition U64x (hi lo : Z) : Z := u64 (Z.shiftl hi 32 + lo).

Definition in_u64 (x : Z) : Prop := 0 <= x < 2 ^ 64.

End Word.
Import Word.

(** ** IEEE-754 binary64 *)

Module fp.

Definition prec : Z := 53.
Definition emax : Z := 1024.

(** A [double], as its 64-bit encoding. *)
Definition double : Type := Z.

Definition sign_of (u : double) : bool := Z.testbit u 63.
Definition biased_exp (u : double) : Z := Z.land (Z.shiftr u 52) 2047.
Definition fraction (u : double) : Z := Z.land u (Z.ones 52).

(** The value denoted by an encoding. *)
Definition decode (u : double) : spec_float :=
  let s := sign_of u in
  let e := biased_exp u in
  let m := fraction u in
  if e =? 0 then
    if m =? 0 then S754_zero s else S754_finite s (Z.to_pos m) (-1074)
  else if e =? 2047 then
    if m =? 0 then S754_infinity s else S754_nan
  else S754_finite s (Z.to_pos (m + 2 ^ 52)) (e - 1075).

Definition sign_bit (s : bool) : Z := if s then 2 ^ 63 else 0.

(** The default quiet NaN of x86-64 SSE2 ("real indefinite"). *)
Definition default_nan : double := 0xFFF8000000000000.

(** The encoding of a value; a finite value is expected to be in the
    canonical form that [SpecFloat]'s operations produce. *)
Definition encode (x : spec_float) : double :=
  match x with
  | S754_zero s => sign_bit s
  | S754_infinity s => sign_bit s + Z.shiftl 2047 52
  | S754_nan => default_nan
  | S754_finite s m e =>
      if Z.pos m <? 2 ^ 52 then sign_bit s + Z.pos m
      else sign_bit s + Z.shiftl (e + 1075) 52 + (Z.pos m - 2 ^ 52)
  end.

Definition is_nan (u : double) : bool :=
  (biased_exp u =? 2047) && negb (fraction u =? 0).

(** NaN results on x86-64: the first NaN operand, quieted; the default NaN
    when no operand is a NaN (an invalid operation). *)
Definition quiet (u : double) : double := Z.lor (u64 u) (Z.shiftl 1 51).

Definition nan_result (a b : double) : double :=
  if is_nan a then quiet a else if is_nan b then quiet b else default_nan.

Definition lift2 (op : spec_float -> spec_float -> spec_float)
    (a b : double) : double :=
  match op (decode a) (decode b) with
  | S754_nan => nan_result a b
  | x => encode x
  end.

Definition mul : double -> double -> double := lift2 (SFmul prec emax).
Definition add : double -> double -> double := lift2 (SFadd prec emax).
Definition sub : double -> double -> double := lift2 (SFsub prec emax).

(** [floor] of <math.h>: the largest integral value not above the
    argument. Zeros, infinities and values with no fractional bits are
    returned as they are. *)
Definition SFfloor (x : spec_float) : spec_float :=
  match x with
  | S754_finite s m e =>
      if 0 <=? e then x
      else binary_normalize prec emax
             (Z.shiftr (cond_Zopp s (Z.pos m)) (- e)) 0 s
  | _ => x
  end.

Definition floor (a : double) : double :=
  match SFfloor (decode a) with
  | S754_nan => nan_result a a
  | x => encode x
  end.

Definition ltb (a b : double) : bool := SFltb (decode a) (decode b).
Definition leb (a b : double) : bool := SFleb (decode a) (decode b).
Definition eqb (a b : double) : bool := SFeqb (decode a) (decode b).

(** The literals of the source. *)
Definition zero : double := 0.
Definition one : double := 0x3FF0000000000000.
Definition two : double := 0x4000000000000000.
(** [3.14159265358979323846] *)
Definition PI : double := 0x400921FB54442D18.
(** [2.7182818284590452354] *)
Definition E : double := 0x4005BF0A8B145769.

(** Modelled from the spec: the union [FpConv] of utils/fp.h is not part of
    the sources; its two members, one [double] and one 64-bit unsigned
    integer, share the same eight bytes, so that reading one after writing
    the other preserves every bit. On the encoding both views coincide. *)
Definition u64_of_f64 (d : double) : Z := u64 d.
Definition f64_of_u64 (u : Z) : double := u64 u.

End fp.

Abbreviation double := fp.double.

(** ** The generator *)

(** [struct RandomState]: the state of the four LFSR generators and the
    validity flag. *)
Record RandomState : Type := mkRandomState {
  gen : list Z;
  valid : bool
}.

Definition set_gen (rs : RandomState) (i : nat) (z : Z) : RandomState :=
  {| gen := <[i := z]> (gen rs); valid := valid rs |}.

Definition set_valid (rs : RandomState) (b : bool) : RandomState :=
  {| gen := gen rs; valid := b |}.

(** The macro [TW223_GEN(i, k, q, s)], on the pair of the running xor [r]
    and the state: update generator [i] and accumulate it into [r]. *)
Definition TW223_GEN (i : nat) (k q s : Z) (st : Z * RandomState)
    : Z * RandomState :=
  let '(r, rs) := st in
  let z := gen rs !!! i in
  let z := Z.lxor
             (Z.shiftr (Z.lxor (u64 (Z.shiftl z q)) z) (k - s))
             (u64 (Z.shiftl (Z.land z (u64 (Z.shiftl (u64 (-1)) (64 - k)))) s)) in
  (Z.lxor r z, set_gen rs i z).

(** [lj_math_random_step]: the returned 64-bit word and the new state. *)
Definition lj_math_random_step (rs : RandomState) : Z * RandomState :=
  let st := (0, rs) in
  let st := TW223_GEN 0 63 31 18 st in
  let st := TW223_GEN 1 58 19 28 st in
  let st := TW223_GEN 2 55 24 7 st in
  let '(r, rs) := TW223_GEN 3 47 21 8 st in
  (Z.lor (Z.land r (U64x 0x000fffff 0xffffffff)) (U64x 0x3ff00000 0x00000000),
   rs).

(** [random_init], the seeding loop [for (i = 0; i < 4; i++)]: [n] iterations
    remain, [i] is the loop counter, [r] packs the values [64-k[i]] still to
    be consumed, [d] is the scrambled seed. *)
Fixpoint random_init_loop (n : nat) (i : nat) (r : Z) (d : double)
    (rs : RandomState) : RandomState :=
  match n with
  | O => rs
  | S n' =>
      let m := u32 (Z.shiftl 1 (Z.land r 255)) in
      let r := Z.shiftr r 8 in
      let d := fp.add (fp.mul d fp.PI) fp.E in
      let conv_u := fp.u64_of_f64 d in
      let conv_u := if conv_u <? m then u64 (conv_u + m) else conv_u in
      random_init_loop n' (S i) r d (set_gen rs i conv_u)
  end.

(** The warm-up loop [for (i = 0; i < 10; i++) lj_math_random_step(rs)]:
    the returned words are dropped. *)
Definition random_warmup (n : nat) (rs : RandomState) : RandomState :=
  Nat.iter n (fun rs => snd (lj_math_random_step rs)) rs.

(** [random_init]: PRNG initialization. *)
Definition random_init (rs : RandomState) (d : double) : RandomState :=
  let rs := random_init_loop 4 0 0x11090601 d rs in
  let rs := set_valid rs true in
  random_warmup 10 rs.

(** ** The library functions *)

(** A Lua value on the stack, by type tag; [TOther] stands for the
    collectable types that are never numbers (tables, functions, userdata,
    threads). *)
Inductive TValue : Type :=
  | TNil
  | TBool (b : bool)
  | TNumber (n : double)
  | TString (s : string)
  | TOther.

(** The arguments of a call: the stack slots from [L->base] up to
    [L->top]. *)
Definition lua_State : Type := list TValue.

(** The error of the argument extractor: the index of the bad argument. *)
Inductive lua_error : Type :=
  | ArgTypeError (narg : positive).

Inductive result (A : Type) : Type :=
  | Ok (a : A)
  | Throw (e : lua_error).
Arguments Ok {A} a.
Arguments Throw {A} e.

(** Computations over the PRNG state that may raise a Lua error. The state
    component is the userdata as the call leaves it, also when it raises. *)
Definition LuaM (A : Type) : Type := RandomState -> result A * RandomState.

Definition ret {A} (a : A) : LuaM A := fun rs => (Ok a, rs).

Definition bind {A B} (c : LuaM A) (k : A -> LuaM B) : LuaM B :=
  fun rs =>
    match c rs with
    | (Ok a, rs') => k a rs'
    | (Throw e, rs') => (Throw e, rs')
    end.

(** An argument check: it reads the stack only. *)
Definition lift {A} (r : result A) : LuaM A := fun rs => (r, rs).

(** A state update that cannot fail. *)
Definition modify (f : RandomState -> RandomState) : LuaM unit :=
  fun rs => (Ok tt, f rs).

Definition get_state : LuaM RandomState := fun rs => (Ok rs, rs).

(** A call of [lj_math_random_step] on the state. *)
Definition step : LuaM Z :=
  fun rs => let '(u, rs') := lj_math_random_step rs in (Ok u, rs').

Notation "'let*' x := c 'in' k" := (bind c (fun x => k))
  (at level 10, x name, c at level 200, k at level 200).

Section Lib.

(** The host's string-to-number scanner ([lj_strscan_num]); it is not part
    of the sources and the generator does not depend on what it accepts. *)
Variable strscan_num : string -> option double.

(** The coercion of a stack slot to a number: numbers are taken as they
    are, strings go through the scanner, nothing else is a number. *)
Definition tonumber (o : TValue) : option double :=
  match o with
  | TNumber n => Some n
  | TString s => strscan_num s
  | _ => None
  end.

(** Modelled from the spec: [uj_lib_checknum] (uj_lib.c) is not part of the
    sources. The spec's numeric-argument extractor returns the [double] in
    argument slot [narg] (counted from 1) and fails with [ArgTypeError]
    when the slot is absent or is neither a number nor a numeric string. *)
Definition uj_lib_checknum (L : lua_State) (narg : positive)
    : result double :=
  match L !! (Pos.to_nat narg - 1)%nat with
  | Some o =>
      match tonumber o with
      | Some n => Ok n
      | None => Throw (ArgTypeError narg)
      end
  | None => Throw (ArgTypeError narg)
  end.

(** [math_random]: the PRNG extract function. The upvalue holding the
    [RandomState] is the state of the monad. *)
Definition math_random (L : lua_State) : LuaM double :=
  let n := Z.of_nat (length L) in
  let* rs := get_state in
  let* _ := (if negb (valid rs)
             then modify (fun rs => random_init rs fp.zero)
             else ret tt) in
  let* conv_u := step in
  let d := fp.sub (fp.f64_of_u64 conv_u) fp.one in
  if 0 <? n then
    let* r1 := lift (uj_lib_checknum L 1) in
    if n =? 1 then
      ret (fp.add (fp.floor (fp.mul d r1)) fp.one)
    else
      let* r2 := lift (uj_lib_checknum L 2) in
      ret (fp.add (fp.floor (fp.mul d (fp.add (fp.sub r2 r1) fp.one))) r1)
  else
    ret d.

(** [math_randomseed]: the PRNG seed function. The argument is extracted
    before [random_init] is entered. *)
Definition math_randomseed (L : lua_State) : LuaM unit :=
  let* d := lift (uj_lib_checknum L 1) in
  modify (fun rs => random_init rs d).

(** [luaopen_math] allocates the state with [valid = 0]; the four words
    are whatever the fresh userdata holds. *)
Definition luaopen_math (garbage : list Z) : RandomState :=
  {| gen := garbage; valid := false |}.

End Lib.


(** ** Calls from Lua code *)

(** The two entry points, with the arguments of the call. A call that
    raises is caught by the caller ([pcall]); the state it leaves behind is
    what the next call sees. *)
Inductive call : Type :=
  | Random (L : lua_State)
  | RandomSeed (L : lua_State).

Definition run_call (strscan_num : string -> option double) (c : call)
    (rs : RandomState) : RandomState :=
  match c with
  | Random L => snd (math_random strscan_num L rs)
  | RandomSeed L => snd (math_randomseed strscan_num L rs)
  end.

Definition run_calls (strscan_num : string -> option double)
    (cs : list call) (rs : RandomState) : RandomState :=
  fold_left (fun rs c => run_call strscan_num c rs) cs rs.

(** The values returned by [n] successive calls [math.random()]. *)
Fixpoint random_sequence (strscan_num : string -> option double) (n : nat)
    (rs : RandomState) : list (result double) :=
  match n with
  | O => []
  | S n' =>
      let '(v, rs') := math_random strscan_num [] rs in
      v :: random_sequence strscan_num n' rs'
  end.

(** ** The non-degeneracy condition *)

(** The degrees [k[i]] of the four generators. *)
Definition tw223_k : list Z := [63; 58; 55; 47].

(** The top [k] bits of a 64-bit word. *)
Definition top_bits (k z : Z) : Z := Z.shiftr z (64 - k).

(** For each lane, the top [k[i]] bits of [gen[i]] are not all zero. *)
Definition nondegenerate (g : list Z) : Prop :=
  forall (i : nat) (k : Z), tw223_k !! i = Some k -> top_bits k (g !!! i) <> 0.

Definition nondegenerateb (g : list Z) : bool :=
  forallb (fun '(k, z) => negb (top_bits k z =? 0)) (zip tw223_k g)
  && (4 <=? length g)%nat.

(** The state holds four 64-bit words. *)
Definition wf_state (rs : RandomState) : Prop :=
  length (gen rs) = 4%nat /\ Forall in_u64 (gen rs).

(** ** The step function and the seeder as the specification words them *)

Module Spec.

(** The per-lane parameters [(k, q, s)]. *)
Definition lanes : list (Z * Z * Z) :=
  [(63, 31, 18); (58, 19, 28); (55, 24, 7); (47, 21, 8)].

(** [MASK_TOP_k(z)]: [z] with the bottom [64 - k] bits forced to zero. *)
Definition MASK_TOP (k z : Z) : Z := z - z mod 2 ^ (64 - k).

(** One lane: [b = ((z << q) XOR z) >> (k - s)], [m = MASK_TOP_k(z) << s],
    [z' = b XOR m], on 64-bit words. *)
Definition lane_step (p : Z * Z * Z) (z : Z) : Z :=
  let '(k, q, s) := p in
  let b := Z.shiftr (Z.lxor (Z.shiftl z q mod 2 ^ 64) z) (k - s) in
  let m := Z.shiftl (MASK_TOP k z) s mod 2 ^ 64 in
  Z.lxor b m.

(** The four updated words. *)
Definition step_gen (g : list Z) : list Z := zip_with lane_step lanes g.

(** The accumulator [r]: initialized to 0, xored with each updated word. *)
Definition xor_all (g : list Z) : Z := fold_left Z.lxor g 0.

(** The returned word: exponent field [0x3FF] over the low 52 bits of
    [r]. *)
Definition step_word (g : list Z) : Z :=
  Z.lor (Z.land (xor_all (step_gen g)) 0x000FFFFFFFFFFFFF)
        0x3FF0000000000000.

(** The [i]-th byte of [r], least significant first. *)
Definition byte_lsb_first (r : Z) (i : nat) : Z :=
  Z.land (Z.shiftr r (8 * Z.of_nat i)) 0xFF.

(** [d = d * pi + e]. *)
Definition scramble (d : double) : double := fp.add (fp.mul d fp.PI) fp.E.

(** Steps d to f of the seeder for one lane: [u = u64_of_f64(d)], and
    [u = u + m] if [u < m], with [m = 1 << shift]. *)
Definition seed_word (shift : Z) (d : double) : Z :=
  let m := Z.shiftl 1 shift in
  let u := fp.u64_of_f64 d in
  if u <? m then u + m else u.

(** The four seeded words: lane [i] is made from the seed scrambled
    [i + 1] times and the [i]-th byte of [0x11090601]. *)
Definition seed_gen (d : double) : list Z :=
  map (fun i : nat =>
         seed_word (byte_lsb_first 0x11090601 i) (Nat.iter (S i) scramble d))
      (seq 0 4).

(** The state after seeding: the seeded words, [valid] set, ten steps. *)
Definition seeded (d : double) : RandomState :=
  Nat.iter 10 (fun rs => snd (lj_math_random_step rs))
    {| gen := seed_gen d; valid := true |}.

End Spec.

(** ** Shift counts: an instrumented reading of the two functions *)

Module Checked.

(** A computation that stops at the first shift whose count is negative or
    not below the width of its operand (C11 6.5.7p3: the behaviour is
    undefined), and otherwise records the counts it used, in evaluation
    order, as pairs of the operand width and the count. *)
Definition Audit (A : Type) : Type := option (A * list (Z * Z)).

Definition aret {A} (a : A) : Audit A := Some (a, []).

Definition abind {A B} (c : Audit A) (k : A -> Audit B) : Audit B :=
  match c with
  | Some (a, l1) =>
      match k a with
      | Some (b, l2) => Some (b, l1 ++ l2)
      | None => None
      end
  | None => None
  end.

Notation "'let?' x := c 'in' k" := (abind c (fun x => k))
  (at level 10, x name, c at level 200, k at level 200).

Definition shl (w x n : Z) : Audit Z :=
  if (0 <=? n) && (n <? w) then Some (Z.shiftl x n mod 2 ^ w, [(w, n)])
  else None.

Definition shr (w x n : Z) : Audit Z :=
  if (0 <=? n) && (n <? w) then Some (Z.shiftr x n, [(w, n)]) else None.

Definition TW223_GEN (i : nat) (k q s : Z) (st : Z * RandomState)
    : Audit (Z * RandomState) :=
  let '(r, rs) := st in
  let z := gen rs !!! i in
  let? zq := shl 64 z q in
  let? b := shr 64 (Z.lxor zq z) (k - s) in
  let? mask := shl 64 (u64 (-1)) (64 - k) in
  let? m := shl 64 (Z.land z mask) s in
  let z := Z.lxor b m in
  aret (Z.lxor r z, set_gen rs i z).

Definition lj_math_random_step (rs : RandomState)
    : Audit (Z * RandomState) :=
  let? st := TW223_GEN 0 63 31 18 (0, rs) in
  let? st := TW223_GEN 1 58 19 28 st in
  let? st := TW223_GEN 2 55 24 7 st in
  let? st := TW223_GEN 3 47 21 8 st in
  let '(r, rs) := st in
  aret (Z.lor (Z.land r (U64x 0x000fffff 0xffffffff))
              (U64x 0x3ff00000 0x00000000), rs).

Fixpoint random_init_loop (n : nat) (i : nat) (r : Z) (d : double)
    (rs : RandomState) : Audit RandomState :=
  match n with
  | O => aret rs
  | S n' =>
      let? m := shl 32 1 (Z.land r 255) in
      let? r := shr 32 r 8 in
      let d := fp.add (fp.mul d fp.PI) fp.E in
      let conv_u := fp.u64_of_f64 d in
      let conv_u := if conv_u <? m then u64 (conv_u + m) else conv_u in
      random_init_loop n' (S i) r d (set_gen rs i conv_u)
  end.

Fixpoint random_warmup (n : nat) (rs : RandomState) : Audit RandomState :=
  match n with
  | O => aret rs
  | S n' =>
      let? rs := random_warmup n' rs in
      let? st := lj_math_random_step rs in
      aret (snd st)
  end.

Definition random_init (rs : RandomState) (d : double)
    : Audit RandomState :=
  let? rs := random_init_loop 4 0 0x11090601 d rs in
  random_warmup 10 (set_valid rs true).

(** The counts of one step, lane by lane: [q], [k - s], [64 - k], [s]. *)
Definition step_counts : list (Z * Z) :=
  [(64, 31); (64, 45); (64, 1); (64, 18);
   (64, 19); (64, 30); (64, 6); (64, 28);
   (64, 24); (64, 48); (64, 9); (64, 7);
   (64, 21); (64, 39); (64, 17); (64, 8)].

(** The counts of the seeding loop: the byte of [r], then the [8] of
    [r >>= 8], four times. *)
Definition seed_counts : list (Z * Z) :=
  [(32, 1); (32, 8); (32, 6); (32, 8); (32, 9); (32, 8); (32, 17); (32, 8)].

End Checked.

(** ** Auxiliary definitions *)

(** The expression of [TW223_GEN]: the new value of a generator with
    parameters [k], [q], [s] whose current value is [z]. *)
Definition tw223 (k q s z : Z) : Z :=
  Z.lxor (Z.shiftr (Z.lxor (u64 (Z.shiftl z q)) z) (k - s))
         (u64 (Z.shiftl (Z.land z (u64 (Z.shiftl (u64 (-1)) (64 - k)))) s)).

(** The word returned by a step, from the running xor [r]. *)
Definition splice (r : Z) : Z :=
  Z.lor (Z.land r 0x000FFFFFFFFFFFFF) 0x3FF0000000000000.

(** The word stored by one iteration of the seeding loop, from the packed
    shifts [r] and the scrambled seed [d]. *)
Definition seed_fix (r : Z) (d : double) : Z :=
  let m := u32 (Z.shiftl 1 (Z.land r 255)) in
  let u := fp.u64_of_f64 d in
  if u <? m then u64 (u + m) else u.

(** A seeded state: four 64-bit words, marked valid, none degenerate. *)
Definition seeded_inv (rs : RandomState) : Prop :=
  wf_state rs /\ valid rs = true /\ nondegenerate (gen rs).

(** The error a call raises, if any. *)
Definition call_error (strscan_num : string -> option double) (c : call)
    (rs : RandomState) : option lua_error :=
  match c with
  | Random L =>
      match fst (math_random strscan_num L rs) with
      | Throw e => Some e
      | Ok _ => None
      end
  | RandomSeed L =>
      match fst (math_randomseed strscan_num L rs) with
      | Throw e => Some e
      | Ok _ => None
      end
  end.

(** The shaping of the raw uniform [d] by the arguments of the call. *)
Definition shape (strscan_num : string -> option double) (L : lua_State)
    (d : double) : result double :=
  match L with
  | [] => Ok d
  | a1 :: rest =>
      match tonumber strscan_num a1 with
      | None => Throw (ArgTypeError 1)
      | Some r1 =>
          match rest with
          | [] => Ok (fp.add (fp.floor (fp.mul d r1)) fp.one)
          | a2 :: _ =>
              match tonumber strscan_num a2 with
              | None => Throw (ArgTypeError 2)
              | Some r2 =>
                  Ok (fp.add
                        (fp.floor (fp.mul d (fp.add (fp.sub r2 r1) fp.one)))
                        r1)
              end
          end
      end
  end.

(** The state on which [math_random] steps: seeded on first use. *)
Definition lazy_init (rs : RandomState) : RandomState :=
  if valid rs then rs else random_init rs fp.zero.

(** ** States of the 223-bit generator *)

(** The lane-wise xor of two states. *)
Definition xor_gen (a b : list Z) : list Z := zip_with Z.lxor a b.

(** Two states agree on the top [k[i]] bits of every lane: they are the same
    state of the 223-bit generator. *)
Definition same_top (a b : list Z) : Prop :=
  forall (i : nat) (k : Z),
    tw223_k !! i = Some k -> top_bits k (a !!! i) = top_bits k (b !!! i).

(** ** The fast-function fallback handlers *)

(** What a fallback handler tells the VM: retry the fast path now that the
    arguments are known to be numbers ([FFH_RETRY]), or return the values the
    handler computed ([FFH_RES(n)], with the values it stored). *)
Inductive ffh : Type :=
  | FFH_RETRY
  | FFH_RES (values : list double).

Section Handlers.

Variable strscan_num : string -> option double.

(** The base-2 logarithm of <math.h>; it is not part of the sources. *)
Variable log2 : double -> double.

(** [math_abs], shared by [math_floor] and [math_ceil]; [math_sqrt] and the
    functions that share it have the same handler. *)
Definition math_abs (L : lua_State) : result ffh :=
  match uj_lib_checknum strscan_num L 1 with
  | Throw e => Throw e
  | Ok _ => Ok FFH_RETRY
  end.

(** [math_atan2], shared by [math_pow] and [math_fmod]; [math_ldexp] has the
    same handler. *)
Definition math_atan2 (L : lua_State) : result ffh :=
  match uj_lib_checknum strscan_num L 1 with
  | Throw e => Throw e
  | Ok _ =>
      match uj_lib_checknum strscan_num L 2 with
      | Throw e => Throw e
      | Ok _ => Ok FFH_RETRY
      end
  end.

(** [math_log]: with a base, [log2(x) * (1.0 / log2(y))]; the product is not
    joined into a division. *)
Definition math_log (L : lua_State) : result ffh :=
  match uj_lib_checknum strscan_num L 1 with
  | Throw e => Throw e
  | Ok x =>
      if (1 <? length L)%nat then
        match uj_lib_checknum strscan_num L 2 with
        | Throw e => Throw e
        | Ok y =>
            let x := log2 x in
            let y := fp.lift2 (SFdiv fp.prec fp.emax) fp.one (log2 y) in
            Ok (FFH_RES [fp.mul x y])
        end
      else Ok FFH_RETRY
  end.

(** The loop [do { uj_lib_checknum(L, ++i); } while (L->base+i < L->top)] of
    [math_min]: [i] is the counter before the increment; [None] when the
    fuel runs out. *)
Fixpoint math_min_loop (fuel : nat) (L : lua_State) (i : nat)
    : option (result unit) :=
  match fuel with
  | O => None
  | S fuel' =>
      let i := S i in
      match uj_lib_checknum strscan_num L (Pos.of_nat i) with
      | Throw e => Some (Throw e)
      | Ok _ =>
          if (i <? length L)%nat then math_min_loop fuel' L i
          else Some (Ok tt)
      end
  end.

(** [math_min], shared by [math_max]. *)
Definition math_min (L : lua_State) : option (result ffh) :=
  match math_min_loop (S (length L)) L 0 with
  | Some (Ok _) => Some (Ok FFH_RETRY)
  | Some (Throw e) => Some (Throw e)
  | None => None
  end.

End Handlers.

(** ** Machine words and bits *)

Lemma testbit_u64 (x i : Z) :
  Z.testbit (u64 x) i = (i <? 64) && Z.testbit x i.
Proof. unfold u64. apply Z.testbit_mod_pow2. lia. Qed.

Lemma u64_range (x : Z) : in_u64 (u64 x).
Proof. unfold in_u64, u64. apply Z.mod_pos_bound. lia. Qed.

Lemma u64_small (x : Z) : in_u64 x -> u64 x = x.
Proof. unfold in_u64, u64. intros. apply Z.mod_small. lia. Qed.

Lemma in_u64_testbit (z i : Z) : in_u64 z -> 64 <= i -> Z.testbit z i = false.
Proof.
  intros Hz Hi. rewrite <- (u64_small z Hz), testbit_u64.
  destruct (Z.ltb_spec i 64); [lia | reflexivity].
Qed.

Lemma in_u64_of_bits (x : Z) :
  (forall i, 64 <= i -> Z.testbit x i = false) -> in_u64 x.
Proof.
  intros H. replace x with (u64 x); [apply u64_range|].
  apply Z.bits_inj'. intros i Hi. rewrite testbit_u64.
  destruct (Z.ltb_spec i 64); simpl; [reflexivity|].
  symmetry. apply H. lia.
Qed.

Lemma tw223_range (k q s z : Z) :
  0 <= k - s -> in_u64 z -> in_u64 (tw223 k q s z).
Proof.
  intros Hks Hz. apply in_u64_of_bits. intros i Hi. unfold tw223.
  rewrite Z.lxor_spec, Z.shiftr_spec, Z.lxor_spec, !testbit_u64 by lia.
  rewrite (in_u64_testbit z) by (assumption || lia).
  destruct (Z.ltb_spec (i + (k - s)) 64); [lia|].
  destruct (Z.ltb_spec i 64); [lia|]. reflexivity.
Qed.

Lemma testbit_tw223 (k q s z j : Z) :
  0 < q -> 0 < s -> q + s <= k -> k < 64 -> in_u64 z -> 0 <= j < 64 ->
  Z.testbit (tw223 k q s z) j =
  xorb (if j + (k - s) <? 64
        then xorb (Z.testbit z (j + (k - s) - q)) (Z.testbit z (j + (k - s)))
        else false)
       (if 64 - k + s <=? j then Z.testbit z (j - s) else false).
Proof.
  intros Hq Hs Hqs Hk Hz Hj. unfold tw223.
  rewrite Z.lxor_spec, Z.shiftr_spec, Z.lxor_spec by lia.
  rewrite !testbit_u64, !Z.shiftl_spec, Z.land_spec by lia.
  replace (u64 (-1)) with (Z.ones 64) by reflexivity.
  f_equal.
  - destruct (Z.ltb_spec (j + (k - s)) 64); simpl; [reflexivity|].
    apply in_u64_testbit; [assumption | lia].
  - destruct (Z.ltb_spec j 64); [simpl | lia].
    destruct (Z.leb_spec (64 - k + s) j).
    + rewrite testbit_u64, Z.shiftl_spec, Z.testbit_ones_nonneg by lia.
      destruct (Z.ltb_spec (j - s) 64); [simpl | lia].
      destruct (Z.ltb_spec (j - s - (64 - k)) 64); [|lia].
      apply andb_true_r.
    + destruct (Z.lt_ge_cases (j - s) 0).
      * rewrite (Z.testbit_neg_r z) by lia. reflexivity.
      * rewrite testbit_u64, Z.shiftl_spec by lia.
        rewrite (Z.testbit_neg_r (Z.ones 64)) by lia.
        rewrite andb_false_r. apply andb_false_r.
Qed.

Lemma top_bits_zero_iff (k z : Z) :
  0 <= k <= 64 -> in_u64 z ->
  top_bits k z = 0 <-> (forall j, 64 - k <= j < 64 -> Z.testbit z j = false).
Proof.
  intros Hk Hz. unfold top_bits. split.
  - intros H j Hj.
    replace j with ((j - (64 - k)) + (64 - k)) by lia.
    rewrite <- Z.shiftr_spec, H by lia. apply Z.testbit_0_l.
  - intros H. apply Z.bits_inj'. intros n Hn.
    rewrite Z.shiftr_spec, Z.testbit_0_l by lia.
    destruct (Z.lt_ge_cases (n + (64 - k)) 64).
    + apply H. lia.
    + apply in_u64_testbit; [assumption | lia].
Qed.

(** The tap of a Tausworthe generator is injective on the top [k] bits: if
    they are all zero after the update, they were all zero before. *)
Lemma tw223_top_bits (k q s z : Z) :
  0 < q -> 0 < s -> q + s <= k -> k < 64 -> in_u64 z ->
  top_bits k (tw223 k q s z) = 0 -> top_bits k z = 0.
Proof.
  intros Hq Hs Hqs Hk Hz H.
  pose proof (tw223_range k q s z ltac:(lia) Hz) as Hz'.
  rewrite top_bits_zero_iff in H by (lia || assumption).
  apply top_bits_zero_iff; [lia | assumption |].
  (* the bits that the update moved to the top part *)
  assert (Hhigh : forall j, 64 - k <= j < 64 - s -> Z.testbit z j = false).
  { intros j Hj. specialize (H (j + s) ltac:(lia)).
    rewrite testbit_tw223 in H by first [assumption | lia].
    destruct (Z.ltb_spec (j + s + (k - s)) 64); [lia|].
    destruct (Z.leb_spec (64 - k + s) (j + s)); [|lia].
    replace (j + s - s) with j in H by lia. exact H. }
  (* the remaining ones, by induction upwards: bit j equals bit j - q *)
  intros j Hj. destruct Hj as [Hlo Hhi]. revert Hhi.
  pattern j. apply (Zlt_lower_bound_ind _ (64 - k)); [|exact Hlo].
  clear j Hlo. intros j IH Hlo Hhi.
  destruct (Z.lt_ge_cases j (64 - s)) as [Hlt | Hge]; [apply Hhigh; lia|].
  specialize (H (j - (k - s)) ltac:(lia)).
  rewrite testbit_tw223 in H by first [assumption | lia].
  replace (j - (k - s) + (k - s)) with j in H by lia.
  destruct (Z.ltb_spec j 64); [|lia].
  destruct (Z.leb_spec (64 - k + s) (j - (k - s))); [lia|].
  rewrite xorb_false_r in H.
  rewrite (IH (j - q)) in H by lia. exact H.
Qed.

(** *** The step function on a state of four words *)

Lemma gen_four (rs : RandomState) :
  length (gen rs) = 4%nat ->
  exists z0 z1 z2 z3, gen rs = [z0; z1; z2; z3].
Proof.
  destruct rs as [g v]; simpl.
  destruct g as [|z0 [|z1 [|z2 [|z3 [|z4 g]]]]]; try discriminate.
  intros _. eauto.
Qed.

Lemma step_four (z0 z1 z2 z3 : Z) (v : bool) :
  lj_math_random_step {| gen := [z0; z1; z2; z3]; valid := v |} =
  (splice (Z.lxor (Z.lxor (Z.lxor (Z.lxor 0 (tw223 63 31 18 z0))
                                  (tw223 58 19 28 z1))
                          (tw223 55 24 7 z2))
                  (tw223 47 21 8 z3)),
   {| gen := [tw223 63 31 18 z0; tw223 58 19 28 z1;
              tw223 55 24 7 z2; tw223 47 21 8 z3];
      valid := v |}).
Proof. reflexivity. Qed.

Lemma MASK_TOP_land (k z : Z) :
  0 <= 64 - k -> in_u64 z ->
  Z.land z (u64 (Z.shiftl (u64 (-1)) (64 - k))) = Spec.MASK_TOP k z.
Proof.
  intros Hk Hz. unfold Spec.MASK_TOP.
  replace (z - z mod 2 ^ (64 - k)) with (Z.shiftl (Z.shiftr z (64 - k)) (64 - k)).
  2:{ rewrite Z.shiftl_mul_pow2, Z.shiftr_div_pow2 by lia.
      pose proof (Z.div_mod z (2 ^ (64 - k)) ltac:(lia)). lia. }
  replace (u64 (-1)) with (Z.ones 64) by reflexivity.
  apply Z.bits_inj'. intros i Hi.
  rewrite Z.land_spec, testbit_u64, !Z.shiftl_spec by lia.
  destruct (Z.lt_ge_cases i (64 - k)).
  - rewrite !(Z.testbit_neg_r _ (i - (64 - k))) by lia.
    rewrite andb_false_r. apply andb_false_r.
  - rewrite Z.shiftr_spec, Z.testbit_ones_nonneg by lia.
    replace (i - (64 - k) + (64 - k)) with i by lia.
    destruct (Z.ltb_spec i 64); simpl.
    + destruct (Z.ltb_spec (i - (64 - k)) 64); [|lia]. apply andb_true_r.
    + rewrite andb_false_r. symmetry. apply in_u64_testbit; [assumption|lia].
Qed.

Lemma tw223_lane_step (k q s z : Z) :
  0 <= 64 - k -> in_u64 z -> tw223 k q s z = Spec.lane_step (k, q, s) z.
Proof.
  intros Hk Hz. unfold tw223, Spec.lane_step.
  rewrite MASK_TOP_land by assumption. reflexivity.
Qed.

(** *** Encodings of normal numbers *)

Lemma testbit_63_small (x : Z) : 0 <= x < 2 ^ 63 -> Z.testbit x 63 = false.
Proof.
  intros Hx. destruct (Z.eq_dec x 0) as [-> | Hne]; [reflexivity|].
  apply Z.bits_above_log2; [lia|]. apply Z.log2_lt_pow2; lia.
Qed.

Lemma decode_normal (E F : Z) :
  0 < E < 2047 -> 0 <= F < 2 ^ 52 ->
  fp.decode (Z.shiftl E 52 + F) =
  S754_finite false (Z.to_pos (F + 2 ^ 52)) (E - 1075).
Proof.
  intros HE HF. unfold fp.decode, fp.sign_of, fp.biased_exp, fp.fraction.
  rewrite Z.shiftl_mul_pow2 by lia.
  assert (Hs : Z.shiftr (E * 2 ^ 52 + F) 52 = E).
  { rewrite Z.shiftr_div_pow2, Z.div_add_l, Z.div_small by lia. lia. }
  assert (He : Z.land E 2047 = E).
  { change 2047 with (Z.ones 11). rewrite Z.land_ones by lia.
    apply Z.mod_small. lia. }
  assert (Hf : Z.land (E * 2 ^ 52 + F) (Z.ones 52) = F).
  { rewrite Z.land_ones by lia.
    rewrite Z.add_comm, Z.mod_add by lia. apply Z.mod_small. lia. }
  rewrite Hs, He, Hf, testbit_63_small by lia.
  destruct (Z.eqb_spec E 0); [lia|]. destruct (Z.eqb_spec E 2047); [lia|].
  reflexivity.
Qed.

Lemma splice_eq (r : Z) : splice r = Z.shiftl 1023 52 + r mod 2 ^ 52.
Proof.
  unfold splice. change 0x000FFFFFFFFFFFFF with (Z.ones 52).
  change 0x3FF0000000000000 with (Z.shiftl 1023 52).
  rewrite Z.land_ones by lia.
  rewrite Z.add_comm, <- Z.lxor_lor, Z.add_nocarry_lxor; [reflexivity| |];
    apply Z.bits_inj'; intros i Hi;
    rewrite Z.land_spec, Z.testbit_mod_pow2, Z.shiftl_spec, Z.testbit_0_l by lia;
    (destruct (Z.ltb_spec i 52); simpl; [|reflexivity]);
    rewrite (Z.testbit_neg_r 1023) by lia; apply andb_false_r.
Qed.

Lemma splice_range (r : Z) : in_u64 (splice r).
Proof.
  rewrite splice_eq. pose proof (Z.mod_pos_bound r (2 ^ 52) ltac:(lia)).
  unfold in_u64. change (Z.shiftl 1023 52) with (1023 * 2 ^ 52). lia.
Qed.

Lemma decode_splice (r : Z) :
  fp.decode (fp.f64_of_u64 (splice r)) =
  S754_finite false (Z.to_pos (r mod 2 ^ 52 + 2 ^ 52)) (-52).
Proof.
  unfold fp.f64_of_u64. rewrite (u64_small _ (splice_range r)), splice_eq.
  pose proof (Z.mod_pos_bound r (2 ^ 52) ltac:(lia)).
  rewrite decode_normal by lia. reflexivity.
Qed.

Lemma splice_in_1_2 (r : Z) :
  fp.leb fp.one (fp.f64_of_u64 (splice r)) = true /\
  fp.ltb (fp.f64_of_u64 (splice r)) fp.two = true.
Proof.
  unfold fp.leb, fp.ltb. rewrite decode_splice.
  pose proof (Z.mod_pos_bound r (2 ^ 52) ltac:(lia)) as Hf.
  change (fp.decode fp.one) with (S754_finite false (Z.to_pos (2 ^ 52)) (-52)).
  change (fp.decode fp.two) with (S754_finite false (Z.to_pos (2 ^ 52)) (-51)).
  unfold SFleb, SFltb, SFcompare.
  change (-52 ?= -52) with Eq. change (-52 ?= -51) with Lt.
  split; [|reflexivity].
  change (Pos.compare_cont Eq ?a ?b) with (Pos.compare a b).
  rewrite <- Z2Pos.inj_compare by lia.
  destruct (Z.compare_spec (2 ^ 52) (r mod 2 ^ 52 + 2 ^ 52)); [reflexivity..|lia].
Qed.

(** *** Rounding of values that need none *)

Lemma digits2_pos_bounds (m : positive) :
  2 ^ (Z.pos (digits2_pos m) - 1) <= Z.pos m < 2 ^ Z.pos (digits2_pos m).
Proof.
  induction m as [p IH | p IH |]; simpl digits2_pos.
  - rewrite Pos2Z.inj_succ, (Pos2Z.inj_xI p).
    replace (Z.succ (Z.pos (digits2_pos p)) - 1)
      with (Z.succ (Z.pos (digits2_pos p) - 1)) by lia.
    rewrite !Z.pow_succ_r by lia. lia.
  - rewrite Pos2Z.inj_succ, (Pos2Z.inj_xO p).
    replace (Z.succ (Z.pos (digits2_pos p)) - 1)
      with (Z.succ (Z.pos (digits2_pos p) - 1)) by lia.
    rewrite !Z.pow_succ_r by lia. lia.
  - simpl. lia.
Qed.

Lemma digits2_pos_iter_xO (m n : positive) :
  digits2_pos (Pos.iter xO m n) = (digits2_pos m + n)%positive.
Proof.
  induction n as [|n IH] using Pos.peano_ind.
  - simpl. lia.
  - rewrite Pos.iter_succ. simpl digits2_pos. rewrite IH. lia.
Qed.

Lemma binary_round_aux_exact (s : bool) (m : positive) (e : Z) :
  Z.pos (digits2_pos m) = 53 -> -1074 <= e <= 971 ->
  binary_round_aux fp.prec fp.emax s (Z.pos m) e loc_Exact = S754_finite s m e.
Proof.
  intros Hd He.
  assert (Hn : fexp fp.prec fp.emax (Zdigits2 (Z.pos m) + e) - e = 0).
  { unfold fexp, emin, fp.prec, fp.emax, Zdigits2. lia. }
  unfold binary_round_aux, shr_fexp. rewrite Hn. simpl shr.
  cbn [shr_record_of_loc shr_m loc_of_shr_record round_nearest_even].
  rewrite Hn. simpl shr. cbn [shr_record_of_loc shr_m].
  destruct (Z.leb_spec e (fp.emax - fp.prec)); [reflexivity|].
  unfold fp.emax, fp.prec in *. lia.
Qed.

Lemma binary_round_small (s : bool) (m : positive) (e : Z) :
  Z.pos (digits2_pos m) < 53 ->
  -1074 <= e + Z.pos (digits2_pos m) - 53 <= 971 ->
  binary_round fp.prec fp.emax s m e =
  S754_finite s (Pos.iter xO m (Z.to_pos (53 - Z.pos (digits2_pos m))))
              (e + Z.pos (digits2_pos m) - 53).
Proof.
  intros Hd He. unfold binary_round, shl_align.
  assert (Hf : fexp fp.prec fp.emax (Z.pos (digits2_pos m) + e)
               = e + Z.pos (digits2_pos m) - 53).
  { unfold fexp, emin, fp.prec, fp.emax. lia. }
  rewrite Hf.
  destruct (e + Z.pos (digits2_pos m) - 53 - e) as [|p|p] eqn:Hp; try lia.
  replace (Z.to_pos (53 - Z.pos (digits2_pos m))) with p by lia.
  apply binary_round_aux_exact; [|lia].
  rewrite digits2_pos_iter_xO. lia.
Qed.

(** Subtracting [1.0] from a number of [[1.0, 2.0)] built by the exponent
    splice is exact: the difference is [+0] or a positive number below
    [1.0]. *)
Lemma sub_splice_one (r : Z) :
  let v := fp.sub (fp.f64_of_u64 (splice r)) fp.one in
  fp.decode v = S754_zero false \/
  exists m e, fp.decode v = S754_finite false m e /\ e < -52.
Proof.
  intros v. subst v. unfold fp.sub, fp.lift2. rewrite decode_splice.
  pose proof (Z.mod_pos_bound r (2 ^ 52) ltac:(lia)) as Hf.
  set (f := r mod 2 ^ 52) in *.
  change (fp.decode fp.one) with (S754_finite false (Z.to_pos (2 ^ 52)) (-52)).
  unfold SFsub. change (Z.min (-52) (-52)) with (-52).
  unfold shl_align. change (-52 - -52) with 0. cbn [fst cond_Zopp].
  rewrite !Z2Pos.id by lia.
  replace (f + 2 ^ 52 - 2 ^ 52) with f by lia.
  destruct f as [|p|p] eqn:Ef; [left; reflexivity| |lia].
  right. unfold binary_normalize.
  pose proof (digits2_pos_bounds p) as Hb.
  assert (Hd : Z.pos (digits2_pos p) < 53).
  { destruct (Z.lt_ge_cases (Z.pos (digits2_pos p)) 53) as [|Hge]; [assumption|].
    pose proof (Z.pow_le_mono_r 2 52 (Z.pos (digits2_pos p) - 1)
                  ltac:(lia) ltac:(lia)). lia. }
  rewrite binary_round_small by lia.
  set (d := Z.pos (digits2_pos p)) in *.
  set (m := Pos.iter xO p (Z.to_pos (53 - d))).
  assert (Hm : Z.pos (digits2_pos m) = 53).
  { subst m. rewrite digits2_pos_iter_xO. lia. }
  pose proof (digits2_pos_bounds m) as Hbm. rewrite Hm in Hbm.
  change (2 ^ (53 - 1)) with (2 ^ 52) in Hbm.
  exists m, (-52 + d - 53). split; [|lia].
  unfold fp.encode. destruct (Z.ltb_spec (Z.pos m) (2 ^ 52)); [lia|].
  change (fp.sign_bit false) with 0. rewrite Z.add_0_l.
  rewrite decode_normal by lia. f_equal; [|lia].
  replace (Z.pos m - 2 ^ 52 + 2 ^ 52) with (Z.pos m) by lia. reflexivity.
Qed.

Lemma step_word_splice (rs : RandomState) :
  exists r, fst (lj_math_random_step rs) = splice r.
Proof.
  unfold lj_math_random_step.
  destruct (TW223_GEN 3 47 21 8 _) as [r rs']. exists r. reflexivity.
Qed.

(** *** The seeder *)

Lemma random_init_loop_S (n i : nat) (r : Z) (d : double) (rs : RandomState) :
  random_init_loop (S n) i r d rs =
  random_init_loop n (S i) (Z.shiftr r 8) (Spec.scramble d)
    (set_gen rs i (seed_fix r (Spec.scramble d))).
Proof. reflexivity. Qed.

Lemma seed_fix_spec (r sh : Z) (d : double) :
  Z.land r 255 = sh -> 0 <= sh < 32 -> seed_fix r d = Spec.seed_word sh d.
Proof.
  intros Hr Hsh. unfold seed_fix, Spec.seed_word. cbv zeta. rewrite Hr.
  assert (Hm : 0 < Z.shiftl 1 sh < 2 ^ 32).
  { rewrite Z.shiftl_1_l. split; [apply Z.pow_pos_nonneg; lia|].
    apply Z.pow_lt_mono_r; lia. }
  assert (Hu : u32 (Z.shiftl 1 sh) = Z.shiftl 1 sh).
  { unfold u32. apply Z.mod_small. lia. }
  rewrite Hu.
  pose proof (u64_range d) as Hd. fold (fp.u64_of_f64 d) in Hd.
  destruct (Z.ltb_spec (fp.u64_of_f64 d) (Z.shiftl 1 sh)); [|reflexivity].
  apply u64_small. unfold in_u64 in *. lia.
Qed.

Lemma random_init_loop_four (rs : RandomState) (d : double) :
  length (gen rs) = 4%nat ->
  random_init_loop 4 0 0x11090601 d rs =
  {| gen := Spec.seed_gen d; valid := valid rs |}.
Proof.
  intros Hlen. destruct (gen_four rs Hlen) as (z0 & z1 & z2 & z3 & Hg).
  destruct rs as [g v]. simpl in Hg. subst g.
  do 4 rewrite random_init_loop_S.
  rewrite (seed_fix_spec 0x11090601 1) by (vm_compute; intuition congruence).
  rewrite (seed_fix_spec (Z.shiftr 0x11090601 8) 6)
    by (vm_compute; intuition congruence).
  rewrite (seed_fix_spec (Z.shiftr (Z.shiftr 0x11090601 8) 8) 9)
    by (vm_compute; intuition congruence).
  rewrite (seed_fix_spec (Z.shiftr (Z.shiftr (Z.shiftr 0x11090601 8) 8) 8) 17)
    by (vm_compute; intuition congruence).
  cbn [random_init_loop]. unfold set_gen. cbn [gen valid].
  unfold Spec.seed_gen. cbn [map seq].
  change (Spec.byte_lsb_first 0x11090601 0) with 1.
  change (Spec.byte_lsb_first 0x11090601 1) with 6.
  change (Spec.byte_lsb_first 0x11090601 2) with 9.
  change (Spec.byte_lsb_first 0x11090601 3) with 17.
  change (Nat.iter 1 Spec.scramble d) with (Spec.scramble d).
  change (Nat.iter 2 Spec.scramble d) with (Spec.scramble (Spec.scramble d)).
  change (Nat.iter 3 Spec.scramble d)
    with (Spec.scramble (Spec.scramble (Spec.scramble d))).
  change (Nat.iter 4 Spec.scramble d)
    with (Spec.scramble (Spec.scramble (Spec.scramble (Spec.scramble d)))).
  generalize (Spec.scramble d). intros d1.
  generalize (Spec.seed_word 1 d1), (Spec.seed_word 6 (Spec.scramble d1)),
    (Spec.seed_word 9 (Spec.scramble (Spec.scramble d1))),
    (Spec.seed_word 17 (Spec.scramble (Spec.scramble (Spec.scramble d1)))).
  reflexivity.
Qed.

Lemma random_init_seeded (rs : RandomState) (d : double) :
  length (gen rs) = 4%nat -> random_init rs d = Spec.seeded d.
Proof.
  intros Hlen. unfold random_init, Spec.seeded, random_warmup.
  rewrite random_init_loop_four by assumption. reflexivity.
Qed.

Lemma seed_word_range (sh : Z) (d : double) :
  0 <= sh < 63 -> in_u64 (Spec.seed_word sh d).
Proof.
  intros Hsh. unfold Spec.seed_word. cbv zeta.
  pose proof (u64_range d) as Hu. fold (fp.u64_of_f64 d) in Hu.
  assert (Hm : 0 < Z.shiftl 1 sh <= 2 ^ 62).
  { rewrite Z.shiftl_1_l. split; [apply Z.pow_pos_nonneg; lia|].
    apply Z.pow_le_mono_r; lia. }
  unfold in_u64 in *.
  destruct (Z.ltb_spec (fp.u64_of_f64 d) (Z.shiftl 1 sh)); lia.
Qed.

(** The fix [if (conv.u < m) conv.u += m] leaves a word that is at least
    [m = 1 << (64 - k)]: one of its top [k] bits is set. *)
Lemma seed_word_top_bits (k : Z) (d : double) :
  0 < k <= 64 -> top_bits k (Spec.seed_word (64 - k) d) <> 0.
Proof.
  intros Hk. unfold top_bits, Spec.seed_word. cbv zeta.
  pose proof (u64_range d) as Hu. fold (fp.u64_of_f64 d) in Hu.
  rewrite Z.shiftl_1_l, Z.shiftr_div_pow2 by lia.
  assert (Hm : 0 < 2 ^ (64 - k)) by (apply Z.pow_pos_nonneg; lia).
  unfold in_u64 in Hu.
  destruct (Z.ltb_spec (fp.u64_of_f64 d) (2 ^ (64 - k)));
    apply Z.neq_sym, Z.lt_neq, Z.div_str_pos; lia.
Qed.

(** *** The invariant of a seeded state *)

Lemma nondegenerate_four (z0 z1 z2 z3 : Z) :
  nondegenerate [z0; z1; z2; z3] <->
  top_bits 63 z0 <> 0 /\ top_bits 58 z1 <> 0 /\
  top_bits 55 z2 <> 0 /\ top_bits 47 z3 <> 0.
Proof.
  unfold nondegenerate. split.
  - intros H. repeat split.
    + apply (H 0%nat). reflexivity.
    + apply (H 1%nat). reflexivity.
    + apply (H 2%nat). reflexivity.
    + apply (H 3%nat). reflexivity.
  - intros (H0 & H1 & H2 & H3) i k Hk.
    destruct i as [|[|[|[|i]]]]; simpl in Hk; try discriminate;
      injection Hk as <-; assumption.
Qed.

Lemma wf_four (z0 z1 z2 z3 : Z) (v : bool) :
  wf_state {| gen := [z0; z1; z2; z3]; valid := v |} <->
  in_u64 z0 /\ in_u64 z1 /\ in_u64 z2 /\ in_u64 z3.
Proof.
  unfold wf_state; simpl. rewrite !Forall_cons, Forall_nil. tauto.
Qed.

Lemma step_wf (rs : RandomState) :
  wf_state rs -> wf_state (snd (lj_math_random_step rs)).
Proof.
  intros Hwf. destruct (gen_four rs (proj1 Hwf)) as (z0 & z1 & z2 & z3 & Hg).
  destruct rs as [g v]. simpl in Hg. subst g.
  rewrite step_four. simpl snd. apply wf_four in Hwf.
  destruct Hwf as (H0 & H1 & H2 & H3).
  apply wf_four. repeat split; apply tw223_range; (lia || assumption).
Qed.

Lemma step_valid (rs : RandomState) :
  valid (snd (lj_math_random_step rs)) = valid rs.
Proof. reflexivity. Qed.

Lemma step_nondegenerate (rs : RandomState) :
  wf_state rs -> nondegenerate (gen rs) ->
  nondegenerate (gen (snd (lj_math_random_step rs))).
Proof.
  intros Hwf. destruct (gen_four rs (proj1 Hwf)) as (z0 & z1 & z2 & z3 & Hg).
  destruct rs as [g v]. simpl in Hg. subst g.
  rewrite step_four. simpl. apply wf_four in Hwf.
  destruct Hwf as (H0 & H1 & H2 & H3).
  rewrite !nondegenerate_four. intros (N0 & N1 & N2 & N3).
  repeat split; intros Hz.
  - apply N0. revert Hz. apply tw223_top_bits; (lia || assumption).
  - apply N1. revert Hz. apply tw223_top_bits; (lia || assumption).
  - apply N2. revert Hz. apply tw223_top_bits; (lia || assumption).
  - apply N3. revert Hz. apply tw223_top_bits; (lia || assumption).
Qed.

Lemma step_inv (rs : RandomState) :
  seeded_inv rs -> seeded_inv (snd (lj_math_random_step rs)).
Proof.
  intros (Hwf & Hv & Hn). repeat split.
  - apply step_wf, Hwf.
  - apply step_wf, Hwf.
  - rewrite step_valid. exact Hv.
  - apply step_nondegenerate; assumption.
Qed.

Lemma warmup_inv (n : nat) (rs : RandomState) :
  seeded_inv rs -> seeded_inv (random_warmup n rs).
Proof.
  intros H. unfold random_warmup.
  induction n as [|n IH]; [exact H|]. simpl. apply step_inv, IH.
Qed.

Lemma seed_gen_inv (d : double) :
  seeded_inv {| gen := Spec.seed_gen d; valid := true |}.
Proof.
  unfold Spec.seed_gen. cbn [map seq].
  change (Spec.byte_lsb_first 0x11090601 0) with (64 - 63).
  change (Spec.byte_lsb_first 0x11090601 1) with (64 - 58).
  change (Spec.byte_lsb_first 0x11090601 2) with (64 - 55).
  change (Spec.byte_lsb_first 0x11090601 3) with (64 - 47).
  split; [|split; [reflexivity|]].
  - apply wf_four. repeat split; apply seed_word_range; lia.
  - cbn [gen]. apply nondegenerate_four.
    repeat split; apply seed_word_top_bits; lia.
Qed.

Lemma seeded_seeded_inv (d : double) : seeded_inv (Spec.seeded d).
Proof. apply (warmup_inv 10), seed_gen_inv. Qed.

Lemma random_init_inv (rs : RandomState) (d : double) :
  length (gen rs) = 4%nat -> seeded_inv (random_init rs d).
Proof.
  intros Hlen. rewrite random_init_seeded by assumption.
  apply seeded_seeded_inv.
Qed.

(** *** The state after a library call *)

Section LibFacts.

Variable strscan_num : string -> option double.

(** Whatever its arguments, and whether it raises or not, [math_random]
    leaves the state one step after the (lazily seeded) state. *)
Lemma math_random_state (L : lua_State) (rs : RandomState) :
  snd (math_random strscan_num L rs) =
  snd (lj_math_random_step
         (if valid rs then rs else random_init rs fp.zero)).
Proof.
  unfold math_random, bind, get_state, modify, ret, lift, step.
  destruct (valid rs); cbn [negb];
    destruct (lj_math_random_step _) as [u rs1]; cbn [snd];
    destruct (0 <? Z.of_nat (length L)); try reflexivity;
    destruct (uj_lib_checknum strscan_num L 1); try reflexivity;
    destruct (Z.of_nat (length L) =? 1); try reflexivity;
    destruct (uj_lib_checknum strscan_num L 2); reflexivity.
Qed.

Lemma math_randomseed_state (L : lua_State) (rs : RandomState) :
  snd (math_randomseed strscan_num L rs) =
  match uj_lib_checknum strscan_num L 1 with
  | Ok d => random_init rs d
  | Throw _ => rs
  end.
Proof.
  unfold math_randomseed, bind, lift, modify.
  destruct (uj_lib_checknum strscan_num L 1); reflexivity.
Qed.

Lemma run_call_inv (c : call) (rs : RandomState) :
  seeded_inv rs -> seeded_inv (run_call strscan_num c rs).
Proof.
  intros H. destruct c as [L | L]; simpl.
  - rewrite math_random_state.
    destruct H as (Hwf & Hv & Hn). rewrite Hv.
    apply step_inv. repeat split; try assumption; apply Hwf.
  - rewrite math_randomseed_state.
    destruct (uj_lib_checknum strscan_num L 1); [|exact H].
    apply random_init_inv, H.
Qed.

Lemma run_calls_inv (cs : list call) (rs : RandomState) :
  seeded_inv rs -> seeded_inv (run_calls strscan_num cs rs).
Proof.
  revert rs. induction cs as [|c cs IH]; intros rs H; [exact H|].
  simpl. apply IH, run_call_inv, H.
Qed.

End LibFacts.

(** ** The claims of the specification *)

(** C1. Non-degeneracy: the seeder leaves, for each lane [i], a word whose top
    [k[i]] bits are not all zero; one step of the generator keeps that property
    on a state of four 64-bit words; hence, from any state produced by
    seeding, after any sequence of [random] and [randomseed] calls (raising
    or not) the state is valid and no lane is degenerate. *)
Theorem nondegeneracy_invariant (strscan_num : string -> option double)
    (rs0 : RandomState) (d : double) (cs : list call) :
  length (gen rs0) = 4%nat ->
  nondegenerate (Spec.seed_gen d) /\
  (forall rs, wf_state rs -> nondegenerate (gen rs) ->
              nondegenerate (gen (snd (lj_math_random_step rs)))) /\
  nondegenerate (gen (random_init rs0 d)) /\
  valid (run_calls strscan_num cs (random_init rs0 d)) = true /\
  nondegenerate (gen (run_calls strscan_num cs (random_init rs0 d))).
Proof.
  intros Hlen. split; [|split; [|split]].
  - apply (seed_gen_inv d).
  - intros rs. apply step_nondegenerate.
  - apply (random_init_inv rs0 d Hlen).
  - pose proof (run_calls_inv strscan_num cs _ (random_init_inv rs0 d Hlen))
      as (_ & Hv & Hn).
    split; assumption.
Qed.

Lemma nondegeneracy_invariant_witness :
  length (gen (luaopen_math [0; 0; 0; 0])) = 4%nat /\
  nondegenerate
    (gen (run_calls (fun _ => None)
            [Random []; RandomSeed [TNumber fp.one]; Random [TNil]]
            (random_init (luaopen_math [0; 0; 0; 0]) fp.zero))).
Proof.
  split; [reflexivity|].
  apply (nondegeneracy_invariant (fun _ => None) (luaopen_math [0; 0; 0; 0])
           fp.zero [Random []; RandomSeed [TNumber fp.one]; Random [TNil]]).
  reflexivity.
Defined.


Lemma math_random_unfold (strscan_num : string -> option double)
    (L : lua_State) (rs : RandomState) :
  math_random strscan_num L rs =
  (shape strscan_num L
     (fp.sub (fp.f64_of_u64 (fst (lj_math_random_step (lazy_init rs)))) fp.one),
   snd (lj_math_random_step (lazy_init rs))).
Proof.
  unfold math_random, bind, get_state, modify, ret, lift, step, lazy_init.
  destruct (valid rs); cbn [negb];
    destruct (lj_math_random_step _) as [u rs1]; cbn [fst snd];
    (destruct L as [|a1 [|a2 rest]];
     [ reflexivity
     | unfold uj_lib_checknum;
       change (0 <? Z.of_nat (length [a1])) with true;
       change (Z.of_nat (length [a1]) =? 1) with true;
       change ([a1] !! (Pos.to_nat 1 - 1)%nat) with (Some a1);
       cbn [shape]; destruct (tonumber strscan_num a1); reflexivity
     | unfold uj_lib_checknum;
       replace (0 <? Z.of_nat (length (a1 :: a2 :: rest))) with true
         by (symmetry; apply Z.ltb_lt; simpl length; lia);
       replace (Z.of_nat (length (a1 :: a2 :: rest)) =? 1) with false
         by (symmetry; apply Z.eqb_neq; simpl length; lia);
       change ((a1 :: a2 :: rest) !! (Pos.to_nat 1 - 1)%nat) with (Some a1);
       change ((a1 :: a2 :: rest) !! (Pos.to_nat 2 - 1)%nat) with (Some a2);
       cbn [shape]; destruct (tonumber strscan_num a1); [|reflexivity];
       destruct (tonumber strscan_num a2); reflexivity ]).
Qed.

(** C2. Range of the zero-argument form: in every state, [math.random()]
    returns [v = u_raw - 1.0], where [u_raw] is the word that
    [lj_math_random_step] returns on the state (seeded with [0.0] first when
    it is not valid), read as a double of [[1.0, 2.0)], and leaves the
    stepped state; [v] satisfies [0.0 <= v < 1.0], it is never [1.0] and
    never negative. *)
Theorem math_random_range (strscan_num : string -> option double)
    (rs : RandomState) :
  exists u_raw v rs',
    lj_math_random_step (if valid rs then rs else random_init rs fp.zero) =
      (u_raw, rs') /\
    fp.leb fp.one (fp.f64_of_u64 u_raw) = true /\
    fp.ltb (fp.f64_of_u64 u_raw) fp.two = true /\
    v = fp.sub (fp.f64_of_u64 u_raw) fp.one /\
    math_random strscan_num [] rs = (Ok v, rs') /\
    fp.leb fp.zero v = true /\ fp.ltb v fp.one = true /\
    fp.eqb v fp.one = false /\ fp.ltb v fp.zero = false.
Proof.
  rewrite math_random_unfold. cbn [shape]. unfold lazy_init.
  set (rs1 := if valid rs then rs else random_init rs fp.zero).
  destruct (step_word_splice rs1) as [r Hr].
  destruct (lj_math_random_step rs1) as [u rs'] eqn:Hstep.
  cbn [fst snd] in *. subst u.
  exists (splice r), (fp.sub (fp.f64_of_u64 (splice r)) fp.one), rs'.
  split; [reflexivity|]. destruct (splice_in_1_2 r) as [H1 H2].
  split; [exact H1|]. split; [exact H2|].
  split; [reflexivity|]. split; [reflexivity|].
  unfold fp.leb, fp.ltb, fp.eqb.
  change (fp.decode fp.zero) with (S754_zero false).
  change (fp.decode fp.one) with (S754_finite false (Z.to_pos (2 ^ 52)) (-52)).
  destruct (sub_splice_one r) as [Hz | (m & e & Hm & He)].
  - rewrite Hz. repeat split; reflexivity.
  - rewrite Hm. unfold SFleb, SFltb, SFeqb, SFcompare.
    destruct (Z.compare_spec e (-52)); [lia | | lia].
    repeat split; reflexivity.
Qed.

(** C3. The step function: on a state of four 64-bit words it replaces each
    lane by the update the specification words (the per-lane parameters
    [(k, q, s)], [MASK_TOP_k]), and returns the exponent [0x3FF] spliced over
    the low 52 bits of the xor of the four updated words; read as a double,
    the returned word lies in [[1.0, 2.0)]. *)
Theorem lj_math_random_step_correct (rs : RandomState) :
  wf_state rs ->
  lj_math_random_step rs =
    (Spec.step_word (gen rs),
     {| gen := Spec.step_gen (gen rs); valid := valid rs |}) /\
  fp.leb fp.one (fp.f64_of_u64 (Spec.step_word (gen rs))) = true /\
  fp.ltb (fp.f64_of_u64 (Spec.step_word (gen rs))) fp.two = true.
Proof.
  intros Hwf. destruct (gen_four rs (proj1 Hwf)) as (z0 & z1 & z2 & z3 & Hg).
  destruct rs as [g v]. simpl in Hg. subst g. cbn [gen valid].
  apply wf_four in Hwf. destruct Hwf as (H0 & H1 & H2 & H3).
  split; [|apply (splice_in_1_2 _)].
  rewrite step_four.
  rewrite !tw223_lane_step by (lia || assumption). reflexivity.
Qed.

Lemma lj_math_random_step_correct_witness :
  wf_state (Spec.seeded fp.zero) /\
  lj_math_random_step (Spec.seeded fp.zero) =
    (Spec.step_word (gen (Spec.seeded fp.zero)),
     {| gen := Spec.step_gen (gen (Spec.seeded fp.zero));
        valid := valid (Spec.seeded fp.zero) |}).
Proof.
  assert (H : wf_state (Spec.seeded fp.zero)).
  { split; [reflexivity|].
    change (gen (Spec.seeded fp.zero))
      with [11588456006894771084; 8523670790150465103;
            5846242980159741610; 3037422542655043879].
    unfold in_u64. repeat constructor; lia. }
  split; [exact H|].
  apply (lj_math_random_step_correct (Spec.seeded fp.zero) H).
Defined.

(** C4. The seeder: the shifts are the bytes of [0x11090601], least
    significant first, that is 1, 6, 9, 17, and [m] is one of [1<<1], [1<<6],
    [1<<9], [1<<17]; the loop stores in lane [i] the bits of the seed
    scrambled [i + 1] times, plus [m] when they are below [m]; [random_init]
    then sets [valid] and runs exactly ten steps. *)
Theorem random_init_correct (rs : RandomState) (d : double) :
  length (gen rs) = 4%nat ->
  map (Spec.byte_lsb_first 0x11090601) (seq 0 4) = [1; 6; 9; 17] /\
  map (Z.shiftl 1) [1; 6; 9; 17] = [2; 64; 512; 131072] /\
  random_init_loop 4 0 0x11090601 d rs =
    {| gen := Spec.seed_gen d; valid := valid rs |} /\
  random_init rs d =
    Nat.iter 10 (fun rs => snd (lj_math_random_step rs))
      {| gen := Spec.seed_gen d; valid := true |}.
Proof.
  intros Hlen. split; [reflexivity|]. split; [reflexivity|].
  split; [apply random_init_loop_four, Hlen|].
  apply (random_init_seeded rs d Hlen).
Qed.

Lemma random_init_correct_witness :
  length (gen (luaopen_math [0; 0; 0; 0])) = 4%nat /\
  random_init (luaopen_math [0; 0; 0; 0]) fp.one =
    Nat.iter 10 (fun rs => snd (lj_math_random_step rs))
      {| gen := Spec.seed_gen fp.one; valid := true |}.
Proof.
  split; [reflexivity|].
  apply (random_init_correct (luaopen_math [0; 0; 0; 0]) fp.one). reflexivity.
Defined.

(** C5. Shaping: with [d0] the value that the call without arguments returns
    in this state, one numeric argument [r1] gives [floor(d0 * r1) + 1.0], two
    or more give [floor(d0 * (r2 - r1 + 1.0)) + r1], and the arguments after
    the second do not change the outcome. *)
Theorem math_random_shaping (strscan_num : string -> option double)
    (rs rs' : RandomState) (d0 : double) (a1 a2 : TValue)
    (rest : list TValue) (r1 r2 : double) :
  math_random strscan_num [] rs = (Ok d0, rs') ->
  (tonumber strscan_num a1 = Some r1 ->
   math_random strscan_num [a1] rs =
     (Ok (fp.add (fp.floor (fp.mul d0 r1)) fp.one), rs')) /\
  (tonumber strscan_num a1 = Some r1 -> tonumber strscan_num a2 = Some r2 ->
   math_random strscan_num (a1 :: a2 :: rest) rs =
     (Ok (fp.add (fp.floor (fp.mul d0 (fp.add (fp.sub r2 r1) fp.one))) r1),
      rs')) /\
  math_random strscan_num (a1 :: a2 :: rest) rs =
    math_random strscan_num [a1; a2] rs.
Proof.
  rewrite !math_random_unfold. cbn [shape].
  generalize (fp.sub (fp.f64_of_u64 (fst (lj_math_random_step (lazy_init rs))))
                fp.one), (snd (lj_math_random_step (lazy_init rs))).
  intros x s H. injection H as -> ->.
  split; [|split].
  - intros ->. reflexivity.
  - intros -> ->. reflexivity.
  - reflexivity.
Qed.

Lemma math_random_shaping_witness :
  math_random (fun _ => None) [] (luaopen_math [0; 0; 0; 0]) =
    (Ok 0x3FE96A235088A080,
     {| gen := [15950668860201446978; 14255206071112240357;
                10449338512064861477; 2816919823890065346];
        valid := true |}) /\
  math_random (fun _ => None)
    [TNumber 0xC014000000000000; TNumber 0x4014000000000000; TNil]
    (luaopen_math [0; 0; 0; 0]) =
  math_random (fun _ => None)
    [TNumber 0xC014000000000000; TNumber 0x4014000000000000]
    (luaopen_math [0; 0; 0; 0]).
Proof.
  assert (H : math_random (fun _ => None) [] (luaopen_math [0; 0; 0; 0]) =
    (Ok 0x3FE96A235088A080,
     {| gen := [15950668860201446978; 14255206071112240357;
                10449338512064861477; 2816919823890065346];
        valid := true |})) by (vm_compute; reflexivity).
  split; [exact H|].
  apply (math_random_shaping (fun _ => None) _ _ _
           (TNumber 0xC014000000000000) (TNumber 0x4014000000000000) [TNil]
           0xC014000000000000 0x4014000000000000 H).
Defined.

(** C6, the claim as stated fails for [random]: the call [math.random(nil)]
    on the state seeded with [0.0] raises [ArgTypeError] for argument 1 and
    leaves a state that differs from the one before the call. *)
Lemma math_random_error_advances_state :
  math_random (fun _ => None) [TNil] (Spec.seeded fp.zero) =
    (Throw (ArgTypeError 1),
     {| gen := [15950668860201446978; 14255206071112240357;
                10449338512064861477; 2816919823890065346];
        valid := true |}) /\
  Spec.seeded fp.zero =
    {| gen := [11588456006894771084; 8523670790150465103;
               5846242980159741610; 3037422542655043879];
       valid := true |} /\
  snd (math_random (fun _ => None) [TNil] (Spec.seeded fp.zero))
    <> Spec.seeded fp.zero.
Proof.
  split; [vm_compute; reflexivity|]. split; [vm_compute; reflexivity|].
  vm_compute. discriminate.
Qed.

(** C6, amended. A [randomseed] call that raises leaves the state as it was;
    a [random] call that raises leaves the state that the call without
    arguments leaves: seeded if it was not valid, and advanced by one
    step. *)
Theorem error_leaves_state (strscan_num : string -> option double)
    (c : call) (rs : RandomState) (e : lua_error) :
  call_error strscan_num c rs = Some e ->
  run_call strscan_num c rs =
  match c with
  | RandomSeed _ => rs
  | Random _ => snd (math_random strscan_num [] rs)
  end.
Proof.
  destruct c as [L | L]; simpl.
  - intros _. rewrite !math_random_state. reflexivity.
  - rewrite math_randomseed_state.
    unfold math_randomseed, bind, lift, modify.
    destruct (uj_lib_checknum strscan_num L 1); [discriminate|reflexivity].
Qed.

Lemma error_leaves_state_witness :
  call_error (fun _ => None) (RandomSeed [TBool true]) (Spec.seeded fp.zero)
    = Some (ArgTypeError 1) /\
  run_call (fun _ => None) (RandomSeed [TBool true]) (Spec.seeded fp.zero)
    = Spec.seeded fp.zero.
Proof.
  split; [reflexivity|].
  apply (error_leaves_state (fun _ => None) (RandomSeed [TBool true])
           (Spec.seeded fp.zero) (ArgTypeError 1)).
  reflexivity.
Defined.

(** C7, the claim as stated fails: the third argument [nil] cannot be coerced
    to a number, and the call [math.random(1, 2, nil)] returns [2.0]. *)
Lemma math_random_ignores_third_argument :
  tonumber (fun _ => None) TNil = None /\
  math_random (fun _ => None) [TNumber fp.one; TNumber fp.two; TNil]
    (Spec.seeded fp.zero) =
    (Ok fp.two,
     {| gen := [15950668860201446978; 14255206071112240357;
                10449338512064861477; 2816919823890065346];
        valid := true |}).
Proof. split; [reflexivity | vm_compute; reflexivity]. Qed.

(** C7, amended. [math.random] raises exactly when one of its first two
    arguments is present and cannot be coerced to a number; later arguments
    are never examined. *)
Theorem math_random_error_coverage (strscan_num : string -> option double)
    (L : lua_State) (rs : RandomState) :
  (exists e, fst (math_random strscan_num L rs) = Throw e) <->
  (exists o, (L !! 0%nat = Some o \/ L !! 1%nat = Some o) /\
             tonumber strscan_num o = None).
Proof.
  rewrite math_random_unfold. cbn [fst].
  destruct L as [|a1 [|a2 rest]]; cbn [shape lookup list_lookup].
  - split; [intros [e H]; discriminate|].
    intros (o & [H | H] & _); discriminate.
  - destruct (tonumber strscan_num a1) eqn:E1.
    + split; [intros [e H]; discriminate|].
      intros (o & [H | H] & Ho); [|discriminate].
      injection H as <-. congruence.
    + split; [|eauto]. intros _. exists a1. auto.
  - destruct (tonumber strscan_num a1) eqn:E1;
      [destruct (tonumber strscan_num a2) eqn:E2|].
    + split; [intros [e H]; discriminate|].
      intros (o & [H | H] & Ho); injection H as <-; congruence.
    + split; [|eauto]. intros _. exists a2. auto.
    + split; [|eauto]. intros _. exists a1. auto.
Qed.

(** C8. Determinism and full replacement: [math.randomseed(s)] leaves the
    state [Spec.seeded d], a function of the number [d] that [s] coerces to,
    whatever the state held before; the values of the following
    [math.random()] calls are therefore the same from any two prior
    states. *)
Theorem randomseed_replaces_state (strscan_num : string -> option double)
    (s : TValue) (d : double) (rs rs' : RandomState) (n : nat) :
  length (gen rs) = 4%nat -> length (gen rs') = 4%nat ->
  tonumber strscan_num s = Some d ->
  math_randomseed strscan_num [s] rs = (Ok tt, Spec.seeded d) /\
  math_randomseed strscan_num [s] rs' = (Ok tt, Spec.seeded d) /\
  random_sequence strscan_num n (snd (math_randomseed strscan_num [s] rs)) =
  random_sequence strscan_num n (snd (math_randomseed strscan_num [s] rs')).
Proof.
  intros Hlen Hlen' Hs.
  assert (H : forall r, length (gen r) = 4%nat ->
            math_randomseed strscan_num [s] r = (Ok tt, Spec.seeded d)).
  { intros r Hr. unfold math_randomseed, bind, lift, modify, uj_lib_checknum.
    change ([s] !! (Pos.to_nat 1 - 1)%nat) with (Some s). cbv beta iota.
    rewrite Hs.
    rewrite random_init_seeded by assumption. reflexivity. }
  rewrite (H rs Hlen), (H rs' Hlen'). auto.
Qed.

Lemma randomseed_replaces_state_witness :
  length (gen (luaopen_math [0; 0; 0; 0])) = 4%nat /\
  length (gen (Spec.seeded fp.one)) = 4%nat /\
  tonumber (fun _ => None) (TNumber fp.two) = Some fp.two /\
  random_sequence (fun _ => None) 3
    (snd (math_randomseed (fun _ => None) [TNumber fp.two]
            (luaopen_math [0; 0; 0; 0]))) =
  random_sequence (fun _ => None) 3
    (snd (math_randomseed (fun _ => None) [TNumber fp.two]
            (Spec.seeded fp.one))).
Proof.
  split; [reflexivity|]. split; [reflexivity|]. split; [reflexivity|].
  apply (randomseed_replaces_state (fun _ => None) (TNumber fp.two) fp.two
           (luaopen_math [0; 0; 0; 0]) (Spec.seeded fp.one) 3);
    reflexivity.
Defined.

(** C9. Lazy initialization: a call of [math.random] on a state that is not
    valid first seeds it with [0.0] and then steps once, eleven steps in all
    from the seeded words; on a valid state it steps exactly once and does
    not seed. This holds for every argument list. *)
Theorem math_random_lazy_init (strscan_num : string -> option double)
    (L : lua_State) (rs : RandomState) :
  length (gen rs) = 4%nat ->
  (valid rs = false ->
   snd (math_random strscan_num L rs) =
     snd (lj_math_random_step (random_init rs fp.zero)) /\
   snd (math_random strscan_num L rs) =
     Nat.iter 11 (fun rs => snd (lj_math_random_step rs))
       {| gen := Spec.seed_gen fp.zero; valid := true |}) /\
  (valid rs = true ->
   snd (math_random strscan_num L rs) = snd (lj_math_random_step rs)).
Proof.
  intros Hlen. rewrite math_random_state. split.
  - intros ->. split; [reflexivity|].
    rewrite random_init_seeded by assumption. reflexivity.
  - intros ->. reflexivity.
Qed.

Lemma math_random_lazy_init_witness :
  length (gen (luaopen_math [0; 0; 0; 0])) = 4%nat /\
  valid (luaopen_math [0; 0; 0; 0]) = false /\
  snd (math_random (fun _ => None) [] (luaopen_math [0; 0; 0; 0])) =
    Nat.iter 11 (fun rs => snd (lj_math_random_step rs))
      {| gen := Spec.seed_gen fp.zero; valid := true |}.
Proof.
  split; [reflexivity|]. split; [reflexivity|].
  apply (math_random_lazy_init (fun _ => None) [] (luaopen_math [0; 0; 0; 0]));
    reflexivity.
Defined.

Lemma checked_TW223_GEN (i : nat) (k q s : Z) (st : Z * RandomState) :
  0 <= q < 64 -> 0 <= k - s < 64 -> 0 <= 64 - k < 64 -> 0 <= s < 64 ->
  Checked.TW223_GEN i k q s st =
  Some (TW223_GEN i k q s st, [(64, q); (64, k - s); (64, 64 - k); (64, s)]).
Proof.
  intros Hq Hks Hk Hs. destruct st as [r rs].
  unfold Checked.TW223_GEN, Checked.shl, Checked.shr, Checked.abind,
    Checked.aret.
  assert (Hb : forall n, 0 <= n < 64 -> (0 <=? n) && (n <? 64) = true).
  { intros n Hn. apply andb_true_intro.
    split; [apply Z.leb_le | apply Z.ltb_lt]; lia. }
  rewrite !Hb by assumption. reflexivity.
Qed.

Lemma checked_step (rs : RandomState) :
  Checked.lj_math_random_step rs =
  Some (lj_math_random_step rs, Checked.step_counts).
Proof.
  unfold Checked.lj_math_random_step, lj_math_random_step.
  rewrite checked_TW223_GEN by lia. unfold Checked.abind at 1.
  rewrite checked_TW223_GEN by lia. unfold Checked.abind at 1.
  rewrite checked_TW223_GEN by lia. unfold Checked.abind at 1.
  rewrite checked_TW223_GEN by lia. unfold Checked.abind at 1.
  destruct (TW223_GEN 3 47 21 8 _) as [r rs']. reflexivity.
Qed.

Lemma checked_warmup (n : nat) (rs : RandomState) :
  Checked.random_warmup n rs =
  Some (random_warmup n rs, concat (replicate n Checked.step_counts)).
Proof.
  induction n as [|n IH]; [reflexivity|].
  cbn [Checked.random_warmup]. rewrite IH. unfold Checked.abind at 1.
  rewrite checked_step. unfold Checked.abind, Checked.aret.
  cbn [replicate concat snd]. unfold random_warmup. cbn [Nat.iter].
  f_equal. f_equal.
  change (Checked.step_counts ++ []) with Checked.step_counts.
  clear. induction n as [|n IH]; [reflexivity|].
  cbn [replicate concat]. rewrite <- app_assoc, IH. reflexivity.
Qed.

Lemma checked_init_loop (rs : RandomState) (d : double) :
  Checked.random_init_loop 4 0 0x11090601 d rs =
  Some (random_init_loop 4 0 0x11090601 d rs, Checked.seed_counts).
Proof. reflexivity. Qed.

(** C10. Shift counts: read with every shift checked against the width of its
    operand, the step function and the seeder never stop, agree with the
    embedding, and use exactly the recorded counts: for each lane [q],
    [k - s], [64 - k], [s], all within 1..63 on 64-bit operands; in the
    seeder 1, 6, 9, 17 for [1u << (r & 255)] and 8 for [r >>= 8], all below
    32. *)
Theorem shift_counts_in_range (rs : RandomState) (d : double) :
  Checked.lj_math_random_step rs =
    Some (lj_math_random_step rs, Checked.step_counts) /\
  Checked.random_init rs d =
    Some (random_init rs d,
          Checked.seed_counts ++ concat (replicate 10 Checked.step_counts)) /\
  Forall (fun p => fst p = 64 /\ 1 <= snd p <= 63) Checked.step_counts /\
  Forall (fun p => fst p = 32 /\ 1 <= snd p <= 31) Checked.seed_counts /\
  map snd (List.filter (fun p => negb (snd p =? 8)) Checked.seed_counts)
    = [1; 6; 9; 17].
Proof.
  split; [apply checked_step|]. split.
  - unfold Checked.random_init. rewrite checked_init_loop.
    unfold Checked.abind at 1. rewrite checked_warmup. reflexivity.
  - split; [|split; [|reflexivity]];
      unfold Checked.step_counts, Checked.seed_counts;
      repeat constructor; simpl; lia.
Qed.

(** ** Further properties of the generator *)

(** *** The lane update as a linear map *)

Lemma testbit_tw223_gen (k q s z i : Z) :
  0 <= k - s -> 0 <= i ->
  Z.testbit (tw223 k q s z) i =
  xorb (xorb ((i + (k - s) <? 64) && Z.testbit z (i + (k - s) - q))
             (Z.testbit z (i + (k - s))))
       ((i <? 64) && (Z.testbit z (i - s) &&
                      ((i - s <? 64) && Z.testbit (Z.ones 64) (i - s - (64 - k))))).
Proof.
  intros Hks Hi. unfold tw223.
  rewrite Z.lxor_spec, Z.shiftr_spec, Z.lxor_spec, !testbit_u64 by lia.
  replace (u64 (-1)) with (Z.ones 64) by reflexivity.
  rewrite !Z.shiftl_spec, Z.land_spec, testbit_u64 by lia.
  f_equal. f_equal.
  destruct (Z.lt_ge_cases (i - s) 0).
  - rewrite !(Z.testbit_neg_r z (i - s)) by lia. reflexivity.
  - rewrite Z.shiftl_spec by lia. reflexivity.
Qed.

(** The lane update is linear over GF(2). *)
Lemma tw223_lxor (k q s a b : Z) :
  0 <= k - s ->
  tw223 k q s (Z.lxor a b) = Z.lxor (tw223 k q s a) (tw223 k q s b).
Proof.
  intros Hks. apply Z.bits_inj'. intros i Hi.
  rewrite Z.lxor_spec, !testbit_tw223_gen, !Z.lxor_spec by assumption.
  destruct (i + (k - s) <? 64), (i <? 64), (i - s <? 64),
    (Z.testbit (Z.ones 64) (i - s - (64 - k))),
    (Z.testbit a (i + (k - s) - q)), (Z.testbit b (i + (k - s) - q)),
    (Z.testbit a (i + (k - s))), (Z.testbit b (i + (k - s))),
    (Z.testbit a (i - s)), (Z.testbit b (i - s)); reflexivity.
Qed.

(** A word whose top [k] bits are zero is mapped to zero, when the taps stay
    inside the top [k] bits: [64 - k <= k - s - q]. *)
Lemma tw223_low_bits (k q s z : Z) :
  0 < q -> 0 < s -> 64 - k <= k - s - q -> k < 64 -> in_u64 z ->
  top_bits k z = 0 -> tw223 k q s z = 0.
Proof.
  intros Hq Hs Hqs Hk Hz H.
  rewrite top_bits_zero_iff in H by (lia || assumption).
  assert (Hb : forall j, 64 - k <= j -> Z.testbit z j = false).
  { intros j Hj. destruct (Z.lt_ge_cases j 64); [apply H; lia|].
    apply in_u64_testbit; [assumption|lia]. }
  apply Z.bits_inj'. intros i Hi.
  rewrite testbit_tw223_gen, Z.testbit_0_l by lia.
  rewrite (Hb (i + (k - s) - q)), (Hb (i + (k - s))) by lia.
  rewrite andb_false_r. cbn [xorb].
  destruct (Z.lt_ge_cases (i - s) (64 - k)).
  - destruct (Z.lt_ge_cases (i - s - (64 - k)) 0); [|lia].
    rewrite (Z.testbit_neg_r (Z.ones 64)) by lia.
    rewrite !andb_false_r. reflexivity.
  - rewrite (Hb (i - s)) by lia. apply andb_false_r.
Qed.

Lemma top_bits_lxor (k a b : Z) :
  top_bits k (Z.lxor a b) = Z.lxor (top_bits k a) (top_bits k b).
Proof. apply Z.shiftr_lxor. Qed.

Lemma lxor_range (a b : Z) : in_u64 a -> in_u64 b -> in_u64 (Z.lxor a b).
Proof.
  intros Ha Hb. apply in_u64_of_bits. intros i Hi.
  rewrite Z.lxor_spec, !in_u64_testbit by (assumption || lia). reflexivity.
Qed.

(** The new value of a lane depends on the top [k] bits of the old one
    only. *)
Lemma tw223_same_top (k q s a b : Z) :
  0 < q -> 0 < s -> 64 - k <= k - s - q -> k < 64 ->
  in_u64 a -> in_u64 b ->
  top_bits k a = top_bits k b -> tw223 k q s a = tw223 k q s b.
Proof.
  intros Hq Hs Hqs Hk Ha Hb H.
  apply Z.lxor_eq. rewrite <- tw223_lxor by lia.
  apply tw223_low_bits; try assumption.
  - apply lxor_range; assumption.
  - rewrite top_bits_lxor, H. apply Z.lxor_nilpotent.
Qed.

(** Two words that differ in their top [k] bits still do after the
    update. *)
Lemma tw223_injective_top (k q s a b : Z) :
  0 < q -> 0 < s -> q + s <= k -> k < 64 -> in_u64 a -> in_u64 b ->
  top_bits k (tw223 k q s a) = top_bits k (tw223 k q s b) ->
  top_bits k a = top_bits k b.
Proof.
  intros Hq Hs Hqs Hk Ha Hb H.
  apply Z.lxor_eq. rewrite <- top_bits_lxor.
  apply (tw223_top_bits k q s); try assumption.
  - apply lxor_range; assumption.
  - rewrite tw223_lxor, top_bits_lxor, H by lia. apply Z.lxor_nilpotent.
Qed.

Lemma same_top_four (a0 a1 a2 a3 b0 b1 b2 b3 : Z) :
  same_top [a0; a1; a2; a3] [b0; b1; b2; b3] <->
  top_bits 63 a0 = top_bits 63 b0 /\ top_bits 58 a1 = top_bits 58 b1 /\
  top_bits 55 a2 = top_bits 55 b2 /\ top_bits 47 a3 = top_bits 47 b3.
Proof.
  unfold same_top. split.
  - intros H. repeat split.
    + apply (H 0%nat). reflexivity.
    + apply (H 1%nat). reflexivity.
    + apply (H 2%nat). reflexivity.
    + apply (H 3%nat). reflexivity.
  - intros (H0 & H1 & H2 & H3) i k Hk.
    destruct i as [|[|[|[|i]]]]; simpl in Hk; try discriminate;
      injection Hk as <-; assumption.
Qed.

Lemma list_four (l : list Z) :
  length l = 4%nat -> exists z0 z1 z2 z3, l = [z0; z1; z2; z3].
Proof.
  destruct l as [|z0 [|z1 [|z2 [|z3 [|z4 g]]]]]; try discriminate.
  intros _. eauto.
Qed.

Lemma land_splice (r : Z) : Z.land (splice r) (Z.ones 52) = Z.land r (Z.ones 52).
Proof.
  rewrite splice_eq, !Z.land_ones by lia.
  change (Z.shiftl 1023 52) with (1023 * 2 ^ 52).
  rewrite Z.add_comm, Z.mod_add by lia. apply Z.mod_mod. lia.
Qed.

(** X1. The step function is linear over GF(2): stepping the lane-wise xor of
    two states gives the lane-wise xor of the two stepped states, and the 52
    fraction bits of the returned word are the xor of those returned for the
    two states. *)
Theorem lj_math_random_step_linear (a b : list Z) (v : bool) :
  length a = 4%nat -> length b = 4%nat ->
  gen (snd (lj_math_random_step {| gen := xor_gen a b; valid := v |})) =
    xor_gen (gen (snd (lj_math_random_step {| gen := a; valid := v |})))
            (gen (snd (lj_math_random_step {| gen := b; valid := v |}))) /\
  Z.land (fst (lj_math_random_step {| gen := xor_gen a b; valid := v |}))
         (Z.ones 52) =
    Z.lxor
      (Z.land (fst (lj_math_random_step {| gen := a; valid := v |}))
              (Z.ones 52))
      (Z.land (fst (lj_math_random_step {| gen := b; valid := v |}))
              (Z.ones 52)).
Proof.
  intros Ha Hb.
  destruct (list_four a Ha) as (a0 & a1 & a2 & a3 & ->).
  destruct (list_four b Hb) as (b0 & b1 & b2 & b3 & ->).
  unfold xor_gen. cbn [zip_with]. rewrite !step_four. cbn [fst snd gen zip_with].
  rewrite !tw223_lxor by lia. split; [reflexivity|].
  rewrite !land_splice.
  generalize (tw223 63 31 18 a0) (tw223 58 19 28 a1) (tw223 55 24 7 a2)
    (tw223 47 21 8 a3) (tw223 63 31 18 b0) (tw223 58 19 28 b1)
    (tw223 55 24 7 b2) (tw223 47 21 8 b3).
  intros x0 x1 x2 x3 y0 y1 y2 y3.
  apply Z.bits_inj'. intros i Hi.
  rewrite ?Z.lxor_spec, ?Z.land_spec, ?Z.lxor_spec, Z.testbit_0_l.
  destruct (Z.testbit (Z.ones 52) i), (Z.testbit x0 i), (Z.testbit x1 i),
    (Z.testbit x2 i), (Z.testbit x3 i), (Z.testbit y0 i), (Z.testbit y1 i),
    (Z.testbit y2 i), (Z.testbit y3 i); reflexivity.
Qed.

Lemma lj_math_random_step_linear_witness :
  length [1; 2; 3; 4] = 4%nat /\ length [5; 6; 7; 8] = 4%nat /\
  gen (snd (lj_math_random_step
              {| gen := xor_gen [1; 2; 3; 4] [5; 6; 7; 8]; valid := true |})) =
    xor_gen
      (gen (snd (lj_math_random_step {| gen := [1; 2; 3; 4]; valid := true |})))
      (gen (snd (lj_math_random_step {| gen := [5; 6; 7; 8]; valid := true |}))).
Proof.
  split; [reflexivity|]. split; [reflexivity|].
  apply (lj_math_random_step_linear [1; 2; 3; 4] [5; 6; 7; 8] true);
    reflexivity.
Defined.

(** X2. The low [64 - k[i]] bits of a lane are not part of the generator's
    state: two states of four 64-bit words that agree on the top [k[i]] bits
    of every lane return the same word and step to the same four words. *)
Theorem lj_math_random_step_top_bits_only (a b : RandomState) :
  wf_state a -> wf_state b -> same_top (gen a) (gen b) ->
  fst (lj_math_random_step a) = fst (lj_math_random_step b) /\
  gen (snd (lj_math_random_step a)) = gen (snd (lj_math_random_step b)).
Proof.
  intros Ha Hb.
  destruct (gen_four a (proj1 Ha)) as (a0 & a1 & a2 & a3 & Hga).
  destruct (gen_four b (proj1 Hb)) as (b0 & b1 & b2 & b3 & Hgb).
  destruct a as [ga va], b as [gb vb]. simpl in Hga, Hgb. subst ga gb.
  apply wf_four in Ha, Hb.
  destruct Ha as (A0 & A1 & A2 & A3), Hb as (B0 & B1 & B2 & B3).
  cbn [gen]. rewrite same_top_four. intros (H0 & H1 & H2 & H3).
  rewrite !step_four. cbn [fst snd gen].
  rewrite (tw223_same_top 63 31 18 a0 b0), (tw223_same_top 58 19 28 a1 b1),
    (tw223_same_top 55 24 7 a2 b2), (tw223_same_top 47 21 8 a3 b3)
    by (lia || assumption).
  split; reflexivity.
Qed.

Lemma lj_math_random_step_top_bits_only_witness :
  wf_state {| gen := [2; 64; 512; 131072]; valid := true |} /\
  wf_state {| gen := [3; 127; 1023; 262143]; valid := true |} /\
  fst (lj_math_random_step {| gen := [2; 64; 512; 131072]; valid := true |}) =
  fst (lj_math_random_step {| gen := [3; 127; 1023; 262143]; valid := true |}).
Proof.
  assert (Ha : wf_state {| gen := [2; 64; 512; 131072]; valid := true |}).
  { split; [reflexivity|]. unfold in_u64. repeat constructor; lia. }
  assert (Hb : wf_state {| gen := [3; 127; 1023; 262143]; valid := true |}).
  { split; [reflexivity|]. unfold in_u64. repeat constructor; lia. }
  split; [exact Ha|]. split; [exact Hb|].
  apply (lj_math_random_step_top_bits_only _ _ Ha Hb).
  apply same_top_four. repeat split; reflexivity.
Defined.

(** X3. The step function never merges two states: if the stepped states
    agree on the top [k[i]] bits of every lane, so did the states before the
    step. *)
Theorem lj_math_random_step_injective (a b : RandomState) :
  wf_state a -> wf_state b ->
  same_top (gen (snd (lj_math_random_step a)))
           (gen (snd (lj_math_random_step b))) ->
  same_top (gen a) (gen b).
Proof.
  intros Ha Hb.
  destruct (gen_four a (proj1 Ha)) as (a0 & a1 & a2 & a3 & Hga).
  destruct (gen_four b (proj1 Hb)) as (b0 & b1 & b2 & b3 & Hgb).
  destruct a as [ga va], b as [gb vb]. simpl in Hga, Hgb. subst ga gb.
  apply wf_four in Ha, Hb.
  destruct Ha as (A0 & A1 & A2 & A3), Hb as (B0 & B1 & B2 & B3).
  rewrite !step_four. cbn [snd gen]. rewrite !same_top_four.
  intros (H0 & H1 & H2 & H3).
  repeat split.
  - apply (tw223_injective_top 63 31 18); (lia || assumption).
  - apply (tw223_injective_top 58 19 28); (lia || assumption).
  - apply (tw223_injective_top 55 24 7); (lia || assumption).
  - apply (tw223_injective_top 47 21 8); (lia || assumption).
Qed.

Lemma lj_math_random_step_injective_witness :
  wf_state {| gen := [2; 64; 512; 131072]; valid := true |} /\
  wf_state {| gen := [3; 127; 1023; 262143]; valid := true |} /\
  same_top [2; 64; 512; 131072] [3; 127; 1023; 262143].
Proof.
  assert (Ha : wf_state {| gen := [2; 64; 512; 131072]; valid := true |}).
  { split; [reflexivity|]. unfold in_u64. repeat constructor; lia. }
  assert (Hb : wf_state {| gen := [3; 127; 1023; 262143]; valid := true |}).
  { split; [reflexivity|]. unfold in_u64. repeat constructor; lia. }
  split; [exact Ha|]. split; [exact Hb|].
  apply (lj_math_random_step_injective _ _ Ha Hb).
  rewrite !step_four. cbn [snd gen].
  apply same_top_four. repeat split; vm_compute; reflexivity.
Defined.

(** X5. Lifecycle of a module instance: after any sequence of calls on the
    state that [luaopen_math] allocates, either the state is still the
    allocated one (not valid, its words untouched), or it is valid, holds four
    64-bit words and no lane is degenerate. *)
Theorem fresh_instance_invariant (strscan_num : string -> option double)
    (garbage : list Z) (cs : list call) :
  length garbage = 4%nat ->
  (valid (run_calls strscan_num cs (luaopen_math garbage)) = false ->
   run_calls strscan_num cs (luaopen_math garbage) = luaopen_math garbage) /\
  (valid (run_calls strscan_num cs (luaopen_math garbage)) = true ->
   wf_state (run_calls strscan_num cs (luaopen_math garbage)) /\
   nondegenerate (gen (run_calls strscan_num cs (luaopen_math garbage)))).
Proof.
  intros Hlen.
  assert (H : forall rs,
            rs = luaopen_math garbage \/ seeded_inv rs ->
            run_calls strscan_num cs rs = luaopen_math garbage \/
            seeded_inv (run_calls strscan_num cs rs)).
  { induction cs as [|c cs IH]; intros rs Hrs; [exact Hrs|].
    simpl. apply IH. destruct Hrs as [-> | Hinv].
    - destruct c as [L | L]; simpl.
      + right. rewrite math_random_state. cbn [luaopen_math valid].
        apply step_inv, random_init_inv. exact Hlen.
      + rewrite math_randomseed_state.
        destruct (uj_lib_checknum strscan_num L 1); [right | left; reflexivity].
        apply random_init_inv. exact Hlen.
    - right. apply run_call_inv, Hinv. }
  destruct (H (luaopen_math garbage) (or_introl eq_refl)) as [-> | (Hwf & Hv & Hn)].
  - split; [reflexivity|]. cbn [luaopen_math valid]. discriminate.
  - split; [congruence|]. intros _. split; assumption.
Qed.

Lemma fresh_instance_invariant_witness :
  length [0; 0; 0; 0] = 4%nat /\
  (valid (run_calls (fun _ => None) [RandomSeed [TNil]; Random [TNil]]
            (luaopen_math [0; 0; 0; 0])) = true ->
   wf_state (run_calls (fun _ => None) [RandomSeed [TNil]; Random [TNil]]
               (luaopen_math [0; 0; 0; 0])) /\
   nondegenerate
     (gen (run_calls (fun _ => None) [RandomSeed [TNil]; Random [TNil]]
             (luaopen_math [0; 0; 0; 0])))).
Proof.
  split; [reflexivity|].
  exact (proj2 (fresh_instance_invariant (fun _ => None) [0; 0; 0; 0]
                  [RandomSeed [TNil]; Random [TNil]] eq_refl)).
Defined.

(** X6. The default seed is [0.0]: on a fresh instance a call of
    [math.random], with any arguments, returns the same result and leaves the
    same state as it would right after [math.randomseed(0)]. *)
Theorem default_seed_is_zero (strscan_num : string -> option double)
    (garbage : list Z) (L : lua_State) :
  length garbage = 4%nat ->
  math_random strscan_num L (luaopen_math garbage) =
  math_random strscan_num L
    (snd (math_randomseed strscan_num [TNumber fp.zero]
            (luaopen_math garbage))).
Proof.
  intros Hlen. rewrite !math_random_unfold, math_randomseed_state.
  unfold uj_lib_checknum.
  change ([TNumber fp.zero] !! (Pos.to_nat 1 - 1)%nat)
    with (Some (TNumber fp.zero)).
  cbn [tonumber]. unfold lazy_init. cbn [luaopen_math valid].
  rewrite random_init_seeded by exact Hlen.
  rewrite (proj1 (proj2 (seeded_seeded_inv fp.zero))). reflexivity.
Qed.

Lemma default_seed_is_zero_witness :
  length [7; 7; 7; 7] = 4%nat /\
  math_random (fun _ => None) [] (luaopen_math [7; 7; 7; 7]) =
  math_random (fun _ => None) []
    (snd (math_randomseed (fun _ => None) [TNumber fp.zero]
            (luaopen_math [7; 7; 7; 7]))).
Proof.
  split; [reflexivity|].
  apply (default_seed_is_zero (fun _ => None) [7; 7; 7; 7] []). reflexivity.
Defined.

(** X4. A degenerate state is absorbing: when the top [k[i]] bits of every
    lane are zero, a step leaves four zero words and returns the bits of
    [1.0], so that [math.random()] would return [0.0] from then on. *)
Theorem degenerate_state_collapses (rs : RandomState) :
  wf_state rs -> same_top (gen rs) [0; 0; 0; 0] ->
  lj_math_random_step rs =
    (fp.one, {| gen := [0; 0; 0; 0]; valid := valid rs |}) /\
  fp.sub (fp.f64_of_u64 (fst (lj_math_random_step rs))) fp.one = fp.zero.
Proof.
  intros Hwf.
  destruct (gen_four rs (proj1 Hwf)) as (z0 & z1 & z2 & z3 & Hg).
  destruct rs as [g v]. simpl in Hg. subst g. cbn [gen valid].
  apply wf_four in Hwf. destruct Hwf as (H0 & H1 & H2 & H3).
  rewrite same_top_four. intros (T0 & T1 & T2 & T3).
  rewrite step_four.
  rewrite (tw223_low_bits 63 31 18 z0), (tw223_low_bits 58 19 28 z1),
    (tw223_low_bits 55 24 7 z2), (tw223_low_bits 47 21 8 z3)
    by (lia || assumption).
  split; reflexivity.
Qed.

Lemma degenerate_state_collapses_witness :
  wf_state {| gen := [1; 63; 511; 131071]; valid := true |} /\
  same_top [1; 63; 511; 131071] [0; 0; 0; 0] /\
  lj_math_random_step {| gen := [1; 63; 511; 131071]; valid := true |} =
    (fp.one, {| gen := [0; 0; 0; 0]; valid := true |}).
Proof.
  assert (Hw : wf_state {| gen := [1; 63; 511; 131071]; valid := true |}).
  { split; [reflexivity|]. unfold in_u64. repeat constructor; lia. }
  assert (Ht : same_top [1; 63; 511; 131071] [0; 0; 0; 0]).
  { apply same_top_four. repeat split; reflexivity. }
  split; [exact Hw|]. split; [exact Ht|].
  apply (degenerate_state_collapses _ Hw Ht).
Defined.

(** *** Exact products, floors and sums *)

Lemma raw_uniform_form (r : Z) :
  let v := fp.sub (fp.f64_of_u64 (splice r)) fp.one in
  v = fp.zero \/
  exists m e, v = fp.encode (S754_finite false m e) /\
              fp.decode v = S754_finite false m e /\
              Z.pos (digits2_pos m) = 53 /\ -104 <= e <= -53.
Proof.
  intros v. subst v. unfold fp.sub, fp.lift2. rewrite decode_splice.
  pose proof (Z.mod_pos_bound r (2 ^ 52) ltac:(lia)) as Hf.
  set (f := r mod 2 ^ 52) in *.
  change (fp.decode fp.one) with (S754_finite false (Z.to_pos (2 ^ 52)) (-52)).
  unfold SFsub. change (Z.min (-52) (-52)) with (-52).
  unfold shl_align. change (-52 - -52) with 0. cbn [fst cond_Zopp].
  rewrite !Z2Pos.id by lia.
  replace (f + 2 ^ 52 - 2 ^ 52) with f by lia.
  destruct f as [|p|p] eqn:Ef; [left; reflexivity| |lia].
  right. unfold binary_normalize.
  pose proof (digits2_pos_bounds p) as Hb.
  assert (Hd : Z.pos (digits2_pos p) < 53).
  { destruct (Z.lt_ge_cases (Z.pos (digits2_pos p)) 53) as [|Hge]; [assumption|].
    pose proof (Z.pow_le_mono_r 2 52 (Z.pos (digits2_pos p) - 1)
                  ltac:(lia) ltac:(lia)). lia. }
  rewrite binary_round_small by lia.
  set (d := Z.pos (digits2_pos p)) in *.
  set (m := Pos.iter xO p (Z.to_pos (53 - d))).
  assert (Hm : Z.pos (digits2_pos m) = 53).
  { subst m. rewrite digits2_pos_iter_xO. lia. }
  pose proof (digits2_pos_bounds m) as Hbm. rewrite Hm in Hbm.
  change (2 ^ (53 - 1)) with (2 ^ 52) in Hbm.
  exists m, (-52 + d - 53). split; [reflexivity|]. split; [|split; [exact Hm|lia]].
  unfold fp.encode. destruct (Z.ltb_spec (Z.pos m) (2 ^ 52)); [lia|].
  change (fp.sign_bit false) with 0. rewrite Z.add_0_l.
  rewrite decode_normal by lia. f_equal; [|lia].
  replace (Z.pos m - 2 ^ 52 + 2 ^ 52) with (Z.pos m) by lia. reflexivity.
Qed.

Lemma iter_pos_nat {A : Type} (f : A -> A) (n : positive) (x : A) :
  SpecFloat.iter_pos f n x = Nat.iter (Pos.to_nat n) f x.
Proof.
  revert x. induction n as [n IH | n IH |]; intros x; cbn [SpecFloat.iter_pos].
  - rewrite !IH, Pos2Nat.inj_xI.
    replace (S (2 * Pos.to_nat n)) with (Pos.to_nat n + Pos.to_nat n + 1)%nat
      by lia.
    rewrite !Nat.iter_add. reflexivity.
  - rewrite !IH, Pos2Nat.inj_xO.
    replace (2 * Pos.to_nat n)%nat with (Pos.to_nat n + Pos.to_nat n)%nat
      by lia.
    rewrite Nat.iter_add. reflexivity.
  - reflexivity.
Qed.

Lemma shr_1_xO (n : nat) (m : positive) :
  Nat.iter n shr_1
    {| shr_m := Z.pos (Nat.iter n xO m); shr_r := false; shr_s := false |} =
  {| shr_m := Z.pos m; shr_r := false; shr_s := false |}.
Proof.
  induction n as [|n IH]; [reflexivity|].
  rewrite Nat.iter_succ_r, (Nat.iter_succ n). cbn [shr_1 orb]. exact IH.
Qed.

Lemma mul_pow2_iter (m : positive) (n : nat) :
  (m * Nat.iter n xO 1 = Nat.iter n xO m)%positive.
Proof.
  induction n as [|n IH]; [apply Pos.mul_1_r|].
  rewrite !Nat.iter_succ, Pos.mul_xO_r, IH. reflexivity.
Qed.

(** Multiplying a normal number by [1.0] is exact. *)
Lemma SFmul_one (s : bool) (m : positive) (e : Z) :
  Z.pos (digits2_pos m) = 53 -> -1074 <= e <= 971 ->
  SFmul fp.prec fp.emax (S754_finite s m e) (fp.decode fp.one) =
  S754_finite s m e.
Proof.
  intros Hd He.
  change (fp.decode fp.one) with (S754_finite false (Nat.iter 52 xO 1%positive) (-52)).
  unfold SFmul. rewrite xorb_false_r, mul_pow2_iter.
  unfold binary_round_aux, shr_fexp.
  assert (Hdig : Zdigits2 (Z.pos (Nat.iter 52 xO m)) = 105).
  { simpl. lia. }
  assert (Hn : fexp fp.prec fp.emax
                 (Zdigits2 (Z.pos (Nat.iter 52 xO m)) + (e + -52)) - (e + -52)
               = 52).
  { rewrite Hdig. unfold fexp, emin, fp.prec, fp.emax. lia. }
  rewrite Hn. cbn [shr shr_record_of_loc].
  rewrite iter_pos_nat. change (Pos.to_nat 52) with 52%nat.
  rewrite shr_1_xO. cbn [shr_m loc_of_shr_record round_nearest_even].
  assert (Hn' : fexp fp.prec fp.emax (Zdigits2 (Z.pos m) + (e + -52 + 52))
                - (e + -52 + 52) = 0).
  { unfold fexp, emin, fp.prec, fp.emax, Zdigits2. lia. }
  rewrite Hn'. cbn [shr shr_record_of_loc shr_m].
  replace (e + -52 + 52) with e by lia.
  destruct (Z.leb_spec e (fp.emax - fp.prec)); [reflexivity|].
  unfold fp.emax, fp.prec in *. lia.
Qed.

(** The floor of a positive number below [1.0] is [+0]. *)
Lemma SFfloor_small (m : positive) (e : Z) :
  Z.pos (digits2_pos m) = 53 -> e <= -53 ->
  fp.SFfloor (S754_finite false m e) = S754_zero false.
Proof.
  intros Hd He. unfold fp.SFfloor.
  destruct (Z.leb_spec 0 e); [lia|]. cbn [cond_Zopp].
  pose proof (digits2_pos_bounds m) as Hb. rewrite Hd in Hb.
  rewrite Z.shiftr_div_pow2, Z.div_small; [reflexivity| |lia].
  split; [lia|]. apply Z.lt_le_trans with (2 ^ 53); [lia|].
  apply Z.pow_le_mono_r; lia.
Qed.

Lemma raw_uniform_mul_one (r : Z) :
  let d0 := fp.sub (fp.f64_of_u64 (splice r)) fp.one in
  fp.mul d0 fp.one = d0 /\ fp.floor d0 = fp.zero.
Proof.
  intros d0. destruct (raw_uniform_form r) as [Hz | (m & e & Hv & Hdec & Hd & He)];
    fold d0 in Hz || fold d0 in Hv, Hdec.
  - rewrite Hz. split; reflexivity.
  - split.
    + unfold fp.mul, fp.lift2. rewrite Hdec, SFmul_one by lia.
      symmetry. exact Hv.
    + unfold fp.floor. rewrite Hdec, SFfloor_small by lia. reflexivity.
Qed.

(** *** The fields of an encoding *)

Lemma fields (r : Z) :
  in_u64 r ->
  r = fp.sign_bit (fp.sign_of r) + fp.biased_exp r * 2 ^ 52 + fp.fraction r /\
  0 <= fp.biased_exp r < 2048 /\ 0 <= fp.fraction r < 2 ^ 52.
Proof.
  unfold in_u64. intros Hr.
  unfold fp.sign_bit, fp.sign_of, fp.biased_exp, fp.fraction.
  change 2047 with (Z.ones 11).
  rewrite !Z.land_ones, Z.shiftr_div_pow2 by lia.
  assert (Hs : Z.testbit r 63 = true <-> (r / 2 ^ 63) mod 2 = 1)
    by (apply Z.testbit_true; lia).
  replace (r / 2 ^ 63) with (r / 2 ^ 52 / 2 ^ 11) in Hs
    by (rewrite Z.div_div by lia; reflexivity).
  pose proof (Z.div_mod r (2 ^ 52) ltac:(lia)) as H1.
  pose proof (Z.mod_pos_bound r (2 ^ 52) ltac:(lia)) as H2.
  pose proof (Z.div_mod (r / 2 ^ 52) (2 ^ 11) ltac:(lia)) as H3.
  pose proof (Z.mod_pos_bound (r / 2 ^ 52) (2 ^ 11) ltac:(lia)) as H4.
  set (q := r / 2 ^ 52) in *. set (f := r mod 2 ^ 52) in *.
  set (t := q / 2 ^ 11) in *. set (x := q mod 2 ^ 11) in *.
  assert (Ht : 0 <= t < 2) by lia.
  destruct (Z.testbit r 63).
  - assert (Ht1 : t mod 2 = 1) by (apply Hs; reflexivity).
    assert (t = 1) by (destruct (Z.eq_dec t 0) as [-> | ?]; [discriminate | lia]).
    lia.
  - assert (Ht1 : t mod 2 <> 1) by (intros H; apply Hs in H; discriminate).
    assert (t = 0)
      by (destruct (Z.eq_dec t 1) as [-> | ?]; [contradiction Ht1; reflexivity | lia]).
    lia.
Qed.

(** Decoding and encoding again gives the same eight bytes, except for
    NaNs. *)
Lemma encode_decode (r : Z) :
  in_u64 r -> fp.biased_exp r <> 2047 -> fp.encode (fp.decode r) = r.
Proof.
  intros Hr He. destruct (fields r Hr) as (Hfields & HE & HF).
  unfold fp.decode.
  destruct (Z.eqb_spec (fp.biased_exp r) 0) as [E0 | E0].
  - destruct (Z.eqb_spec (fp.fraction r) 0) as [F0 | F0]; cbn [fp.encode].
    + lia.
    + rewrite Z2Pos.id by lia.
      destruct (Z.ltb_spec (fp.fraction r) (2 ^ 52)); lia.
  - destruct (Z.eqb_spec (fp.biased_exp r) 2047); [contradiction|].
    cbn [fp.encode]. rewrite Z2Pos.id by lia.
    destruct (Z.ltb_spec (fp.fraction r + 2 ^ 52) (2 ^ 52)); [lia|].
    rewrite Z.shiftl_mul_pow2 by lia. lia.
Qed.

Lemma decode_not_special (r : Z) :
  fp.biased_exp r <> 2047 ->
  (exists s, fp.decode r = S754_zero s) \/
  (exists s m e, fp.decode r = S754_finite s m e).
Proof.
  intros He. unfold fp.decode.
  destruct (fp.biased_exp r =? 0).
  - destruct (fp.fraction r =? 0); eauto.
  - destruct (Z.eqb_spec (fp.biased_exp r) 2047); [contradiction|eauto].
Qed.

Lemma sub_diag (r : Z) : fp.biased_exp r <> 2047 -> fp.sub r r = fp.zero.
Proof.
  intros He. unfold fp.sub, fp.lift2.
  destruct (decode_not_special r He) as [[s ->] | (s & m & e & ->)].
  - destruct s; reflexivity.
  - unfold SFsub. rewrite Z.sub_diag. reflexivity.
Qed.

Lemma add_zero_l (r : Z) :
  in_u64 r -> fp.biased_exp r <> 2047 -> r <> 2 ^ 63 ->
  fp.add fp.zero r = r.
Proof.
  intros Hr He Hn. pose proof (encode_decode r Hr He) as Hrt.
  unfold fp.add, fp.lift2.
  change (fp.decode fp.zero) with (S754_zero false).
  destruct (decode_not_special r He) as [[s Hd] | (s & m & e & Hd)];
    rewrite Hd in *; cbn [SFadd].
  - destruct s; [|exact Hrt]. cbn [fp.encode fp.sign_bit] in Hrt. lia.
  - exact Hrt.
Qed.

Section Shaping.

Variable strscan_num : string -> option double.

(** X7. A range of one point: for every finite number [m] other than [-0.0]
    and in every state, [math.random(m, m)] returns [m], bit for bit. *)
Theorem math_random_one_point_range (rs : RandomState) (a1 a2 : TValue)
    (rest : list TValue) (r : double) :
  in_u64 r -> fp.biased_exp r <> 2047 -> r <> 2 ^ 63 ->
  tonumber strscan_num a1 = Some r -> tonumber strscan_num a2 = Some r ->
  fst (math_random strscan_num (a1 :: a2 :: rest) rs) = Ok r.
Proof.
  intros Hr He Hn H1 H2. rewrite math_random_unfold. cbn [fst shape].
  rewrite H1, H2, sub_diag by assumption.
  replace (fp.add fp.zero fp.one) with fp.one by (vm_compute; reflexivity).
  destruct (step_word_splice (lazy_init rs)) as [x ->].
  destruct (raw_uniform_mul_one x) as [Hm Hf]. cbv zeta in Hm, Hf.
  rewrite Hm, Hf, add_zero_l by assumption. reflexivity.
Qed.

End Shaping.

Lemma math_random_one_point_range_witness :
  in_u64 0xC014000000000000 /\
  fp.biased_exp 0xC014000000000000 <> 2047 /\
  0xC014000000000000 <> 2 ^ 63 /\
  fst (math_random (fun _ => None)
         [TNumber 0xC014000000000000; TNumber 0xC014000000000000]
         (luaopen_math [0; 0; 0; 0])) = Ok 0xC014000000000000.
Proof.
  assert (H1 : in_u64 0xC014000000000000) by (unfold in_u64; lia).
  assert (H2 : fp.biased_exp 0xC014000000000000 <> 2047)
    by (vm_compute; discriminate).
  assert (H3 : 0xC014000000000000 <> 2 ^ 63) by lia.
  split; [exact H1|]. split; [exact H2|]. split; [exact H3|].
  apply (math_random_one_point_range (fun _ => None) (luaopen_math [0; 0; 0; 0])
           (TNumber 0xC014000000000000) (TNumber 0xC014000000000000) []
           0xC014000000000000 H1 H2 H3); reflexivity.
Defined.

Lemma raw_uniform_mul_zero (r : Z) :
  fp.mul (fp.sub (fp.f64_of_u64 (splice r)) fp.one) fp.zero = fp.zero.
Proof.
  destruct (raw_uniform_form r) as [Hz | (m & e & Hv & Hdec & Hd & He)];
    cbv zeta in *.
  - rewrite Hz. reflexivity.
  - unfold fp.mul, fp.lift2. rewrite Hdec. reflexivity.
Qed.

Section SmallArguments.

Variable strscan_num : string -> option double.

(** X8. Small upper bounds: in every state [math.random(1)] returns [1.0],
    and so does [math.random(0)]: an empty interval is not an error. *)
Theorem math_random_one_or_zero (rs : RandomState) (a1 : TValue) :
  tonumber strscan_num a1 = Some fp.one \/
  tonumber strscan_num a1 = Some fp.zero ->
  fst (math_random strscan_num [a1] rs) = Ok fp.one.
Proof.
  intros H. rewrite math_random_unfold. cbn [fst shape].
  destruct (step_word_splice (lazy_init rs)) as [x ->].
  destruct H as [-> | ->].
  - destruct (raw_uniform_mul_one x) as [Hm Hf]. cbv zeta in Hm, Hf.
    rewrite Hm, Hf. vm_compute. reflexivity.
  - rewrite raw_uniform_mul_zero. vm_compute. reflexivity.
Qed.

End SmallArguments.

Lemma math_random_one_or_zero_witness :
  (tonumber (fun _ => None) (TNumber fp.zero) = Some fp.one \/
   tonumber (fun _ => None) (TNumber fp.zero) = Some fp.zero) /\
  fst (math_random (fun _ => None) [TNumber fp.zero]
         (luaopen_math [0; 0; 0; 0])) = Ok fp.one.
Proof.
  split; [right; reflexivity|].
  apply (math_random_one_or_zero (fun _ => None) (luaopen_math [0; 0; 0; 0])
           (TNumber fp.zero)).
  right. reflexivity.
Defined.

(** ** Argument checks of the fallback handlers *)

Section HandlerFacts.

Variable strscan_num : string -> option double.

Lemma checknum_middle (pre post : list TValue) (o : TValue) :
  uj_lib_checknum strscan_num (pre ++ o :: post)
    (Pos.of_nat (S (length pre))) =
  match tonumber strscan_num o with
  | Some n => Ok n
  | None => Throw (ArgTypeError (Pos.of_nat (S (length pre))))
  end.
Proof.
  unfold uj_lib_checknum, lua_State. rewrite Nat2Pos.id by discriminate.
  replace (S (length pre) - 1)%nat with (length pre) by lia.
  rewrite (list_lookup_middle pre post o (length pre) eq_refl). reflexivity.
Qed.

Lemma math_min_loop_good (suf pre : list TValue) (fuel : nat) :
  Forall (fun o => tonumber strscan_num o <> None) suf -> suf <> [] ->
  (length suf <= fuel)%nat ->
  math_min_loop strscan_num fuel (pre ++ suf) (length pre) = Some (Ok tt).
Proof.
  revert pre fuel. induction suf as [|o suf IH]; intros pre fuel Hgood Hne Hfuel;
    [contradiction|].
  destruct fuel as [|fuel]; [simpl in Hfuel; lia|].
  cbn [math_min_loop]. rewrite checknum_middle.
  apply Forall_cons in Hgood. destruct Hgood as [Ho Hsuf].
  destruct (tonumber strscan_num o); [|contradiction].
  rewrite length_app. cbn [length].
  destruct suf as [|o' suf'].
  - cbn [length].
    destruct (Nat.ltb_spec (S (length pre)) (length pre + 1)); [lia|].
    reflexivity.
  - cbn [length].
    destruct (Nat.ltb_spec (S (length pre)) (length pre + S (S (length suf'))));
      [|lia].
    replace (pre ++ o :: o' :: suf') with ((pre ++ [o]) ++ o' :: suf')
      by (rewrite <- app_assoc; reflexivity).
    replace (S (length pre)) with (length (pre ++ [o]))
      by (rewrite length_app; simpl; lia).
    apply IH; [assumption | discriminate | simpl in *; lia].
Qed.

Lemma math_min_loop_bad (mid pre post : list TValue) (o : TValue) (fuel : nat) :
  Forall (fun o => tonumber strscan_num o <> None) mid ->
  tonumber strscan_num o = None ->
  (length mid < fuel)%nat ->
  math_min_loop strscan_num fuel (pre ++ mid ++ o :: post) (length pre) =
  Some (Throw (ArgTypeError (Pos.of_nat (S (length pre + length mid))))).
Proof.
  revert pre fuel. induction mid as [|a mid IH]; intros pre fuel Hgood Ho Hfuel.
  - destruct fuel as [|fuel]; [simpl in Hfuel; lia|].
    cbn [math_min_loop app]. rewrite checknum_middle, Ho.
    rewrite Nat.add_0_r. reflexivity.
  - destruct fuel as [|fuel]; [simpl in Hfuel; lia|].
    cbn [math_min_loop]. rewrite <- app_comm_cons, checknum_middle.
    apply Forall_cons in Hgood. destruct Hgood as [Ha Hmid].
    destruct (tonumber strscan_num a); [|contradiction].
    destruct (Nat.ltb_spec (S (length pre))
                (length (pre ++ a :: mid ++ o :: post))) as [_ | Hge].
    2:{ rewrite length_app in Hge. simpl in Hge. rewrite length_app in Hge.
        simpl in Hge. lia. }
    replace (pre ++ a :: mid ++ o :: post)
      with ((pre ++ [a]) ++ mid ++ o :: post)
      by (rewrite <- app_assoc; reflexivity).
    replace (S (length pre)) with (length (pre ++ [a]))
      by (rewrite length_app; simpl; lia).
    rewrite IH by (assumption || simpl in *; lia).
    rewrite length_app. simpl. do 4 f_equal. lia.
Qed.

Lemma first_bad (L : list TValue) :
  Forall (fun o => tonumber strscan_num o <> None) L \/
  exists pre o post,
    L = pre ++ o :: post /\
    Forall (fun o => tonumber strscan_num o <> None) pre /\
    tonumber strscan_num o = None.
Proof.
  induction L as [|a L IH]; [left; constructor|].
  destruct (tonumber strscan_num a) eqn:Ea.
  - destruct IH as [IH | (pre & o & post & -> & Hpre & Ho)].
    + left. constructor; [congruence | assumption].
    + right. exists (a :: pre), o, post.
      split; [reflexivity|]. split; [|assumption].
      constructor; [congruence | assumption].
  - right. exists [], a, L. split; [reflexivity|]. split; [constructor|assumption].
Qed.

Lemma math_min_throws (pre post : list TValue) (o : TValue) :
  Forall (fun o => tonumber strscan_num o <> None) pre ->
  tonumber strscan_num o = None ->
  math_min strscan_num (pre ++ o :: post) =
  Some (Throw (ArgTypeError (Pos.of_nat (S (length pre))))).
Proof.
  intros Hpre Ho. unfold math_min.
  rewrite (math_min_loop_bad pre [] post o) by
    (assumption || (rewrite length_app; simpl; lia)).
  reflexivity.
Qed.

(** X9. [math.min] and [math.max] report the first argument that is not a
    number: when the arguments before position [i] are numbers and the one at
    position [i] is not, the handler raises [ArgTypeError] for [i]. *)
Theorem math_min_first_bad_argument (pre post : list TValue) (o : TValue) :
  Forall (fun o => tonumber strscan_num o <> None) pre ->
  tonumber strscan_num o = None ->
  math_min strscan_num (pre ++ o :: post) =
  Some (Throw (ArgTypeError (Pos.of_nat (S (length pre))))).
Proof. apply math_min_throws. Qed.

(** X10. The loop of [math.min] checks every argument and terminates: with no
    argument at all it raises [ArgTypeError] for argument 1; it hands over to
    the fast path exactly when there is at least one argument and all of
    them are numbers. *)
Theorem math_min_checks_every_argument (L : list TValue) :
  math_min strscan_num [] = Some (Throw (ArgTypeError 1)) /\
  math_min strscan_num L <> None /\
  (math_min strscan_num L = Some (Ok FFH_RETRY) <->
   L <> [] /\ Forall (fun o => tonumber strscan_num o <> None) L).
Proof.
  split; [reflexivity|].
  destruct (first_bad L) as [Hgood | (pre & o & post & -> & Hpre & Ho)].
  - destruct L as [|a L].
    + split; [discriminate|]. split; [discriminate | intros [H _]; contradiction].
    + unfold math_min.
      rewrite (math_min_loop_good (a :: L) []) by
        (assumption || discriminate || (simpl; lia)).
      split; [discriminate|]. split; [|reflexivity].
      intros _. split; [discriminate | assumption].
  - rewrite math_min_throws by assumption.
    split; [discriminate|]. split; [discriminate|].
    intros [_ H]. apply Forall_app in H. destruct H as [_ H].
    apply Forall_cons in H. destruct H as [H _]. contradiction.
Qed.

(** X11. [math.log] raises exactly when it has no argument or one of its first
    two arguments is present and is not a number; it hands over to the fast
    path (the natural logarithm) exactly when it has one argument, a number;
    with a base it computes the result itself. *)
Theorem math_log_arity (log2 : double -> double) (L : lua_State) :
  ((exists e, math_log strscan_num log2 L = Throw e) <->
   L = [] \/
   (exists o, (L !! 0%nat = Some o \/ L !! 1%nat = Some o) /\
              tonumber strscan_num o = None)) /\
  (math_log strscan_num log2 L = Ok FFH_RETRY <->
   exists a x, L = [a] /\ tonumber strscan_num a = Some x).
Proof.
  unfold math_log, uj_lib_checknum.
  change (Pos.to_nat 1 - 1)%nat with 0%nat.
  change (Pos.to_nat 2 - 1)%nat with 1%nat.
  destruct L as [|a1 [|a2 rest]]; cbn [lookup list_lookup length Nat.ltb Nat.leb].
  - split.
    + split; [auto | eauto].
    + split; [discriminate | intros (a & x & H & _); discriminate].
  - destruct (tonumber strscan_num a1) eqn:E1; split.
    + split; [intros [e H]; discriminate|].
      intros [H | (o & [H | H] & Ho)]; try discriminate.
      injection H as <-. congruence.
    + split; [eauto | reflexivity].
    + split; [|eauto]. intros _. right. exists a1. auto.
    + split; [discriminate|]. intros (a & x & H & Hx).
      injection H as <-. congruence.
  - destruct (tonumber strscan_num a1) eqn:E1;
      [destruct (tonumber strscan_num a2) eqn:E2|]; split.
    + split; [intros [e H]; discriminate|].
      intros [H | (o & [H | H] & Ho)]; try discriminate;
        injection H as <-; congruence.
    + split; [discriminate | intros (a & x & H & _); discriminate].
    + split; [|eauto]. intros _. right. exists a2. auto.
    + split; [discriminate | intros (a & x & H & _); discriminate].
    + split; [|eauto]. intros _. right. exists a1. auto.
    + split; [discriminate | intros (a & x & H & _); discriminate].
Qed.

End HandlerFacts.

Lemma math_min_first_bad_argument_witness :
  Forall (fun o => tonumber (fun _ => None) o <> None)
    [TNumber fp.one; TNumber fp.two] /\
  tonumber (fun _ => None) (TBool true) = None /\
  math_min (fun _ => None)
    ([TNumber fp.one; TNumber fp.two] ++ TBool true :: [TNumber fp.zero]) =
  Some (Throw (ArgTypeError 3)).
Proof.
  assert (H : Forall (fun o => tonumber (fun _ => None) o <> None)
                [TNumber fp.one; TNumber fp.two])
    by (repeat constructor; discriminate).
  split; [exact H|]. split; [reflexivity|].
  apply (math_min_first_bad_argument (fun _ => None)
           [TNumber fp.one; TNumber fp.two] [TNumber fp.zero] (TBool true) H).
  reflexivity.
Defined.
